(** * freestyle_hid._session: the session layer of the FreeStyle HID protocol

    A shallow embedding of [src/freestyle_hid/_session.py]: the frame codec
    declared with [construct], the keep-alive filter and error classification
    of [read_response], record protection ([encrypt_message],
    [decrypt_message]), the encryption handshake, the text-reply assembler and
    the additive checksum.

    Python values are modelled as follows: [bytes] is [list byte], [int] is
    [Z], a raised exception is the [Raise] branch of [result], and the mutable
    session together with its HID handle is threaded through a state monad
    that keeps the state reached when an exception is raised. *)

From Stdlib Require Import ZArith NArith List Bool Lia String Ascii.
From Stdlib Require Import Strings.Byte.
Import ListNotations.

Local Open Scope Z_scope.

(** ** Python values *)

Definition bytes := list byte.

Definition byte_val (b : byte) : Z := Z.of_N (Byte.to_N b).

(** The byte whose value is [z mod 256]. *)
Definition byte_of_Z (z : Z) : byte :=
  match Byte.of_N (Z.to_N (z mod 256)) with
  | Some b => b
  | None => x00
  end.

Definition bytes_eqb (a b : bytes) : bool :=
  if list_eq_dec Byte.byte_eq_dec a b then true else false.

(** [b"..."] literals made of printable characters. *)
Definition b_ (s : string) : bytes := list_byte_of_string s.

Definition CR : byte := x0d.
Definition LF : byte := x0a.
Definition CRLF : bytes := [CR; LF].

(** [l[a:b]] for non-negative [a] and [b]: both ends are clamped to the
    length of [l], and the slice is empty when [b <= a]. *)
Definition slice {A} (a b : nat) (l : list A) : list A :=
  firstn (b - a) (skipn a l).

(** [l[a:]] and [l[:b]]. *)
Definition slice_from {A} (a : nat) (l : list A) : list A := skipn a l.
Definition slice_to {A} (b : nat) (l : list A) : list A := firstn b l.

(** [bytes(n)]: [n] zero bytes. *)
Definition zeros (n : nat) : bytes := repeat x00 n.

(** ** Exceptions *)

(** The text carried by a [CommandError]: a literal, or one of the two
    formatted messages of the module. *)
Inductive error_text :=
| Literal (s : string)
| ReprOf (content : bytes)
| TypeMismatch (message_type : Z) (content : bytes).

Inductive exn :=
| AssertionError
| IndexError
| OverflowError
| ValueError
| AttributeError
| FormatFieldError
| PaddingError
| ConstError
| StreamError
| ChecksumError (expected calculated : Z)
| CommandError (text : error_text)
| ConnectionError (message_type : Z) (content : bytes)
| LookupError
| RecursionError
| ReadBlocked.

Inductive result (A : Type) :=
| Ok (a : A)
| Raise (e : exn).
Arguments Ok {A} a.
Arguments Raise {A} e.

Definition rbind {A B} (r : result A) (k : A -> result B) : result B :=
  match r with
  | Ok a => k a
  | Raise e => Raise e
  end.

Declare Scope result_scope.
Delimit Scope result_scope with result.
Notation "x <- c ;; k" := (rbind c (fun x => k))
  (at level 61, c at next level, right associativity) : result_scope.
Notation "' p <- c ;; k" := (rbind c (fun x => match x with p => k end))
  (at level 61, p pattern, c at next level, right associativity) : result_scope.
Notation "c ;; k" := (rbind c (fun _ => k))
  (at level 61, right associativity) : result_scope.

(** [assert c]. *)
Definition assert (c : bool) : result unit :=
  if c then Ok tt else Raise AssertionError.

(** [l[i]] for a non-negative index. *)
Definition index {A} (l : list A) (i : nat) : result A :=
  match nth_error l i with
  | Some a => Ok a
  | None => Raise IndexError
  end.

(** [int.from_bytes(l, 'big', signed=False)]. *)
Definition int_from_bytes_big (l : bytes) : Z :=
  fold_left (fun acc b => acc * 256 + byte_val b) l 0.

(** The [n] low bytes of [z], least significant first. *)
Fixpoint le_bytes (n : nat) (z : Z) : bytes :=
  match n with
  | O => []
  | S n' => byte_of_Z z :: le_bytes n' (z / 256)
  end.

(** [int.to_bytes(z, n, byteorder='little', signed=False)]. *)
Definition int_to_bytes_little (z : Z) (n : nat) : result bytes :=
  if (0 <=? z) && (z <? 256 ^ Z.of_nat n) then Ok (le_bytes n z)
  else Raise OverflowError.

(** The value of a little-endian byte string. *)
Fixpoint int_from_bytes_little (l : bytes) : Z :=
  match l with
  | [] => 0
  | b :: l' => byte_val b + 256 * int_from_bytes_little l'
  end.

(** ** The [construct] declarations used by the module

    A construct is a pair of a builder, which appends bytes to the output
    stream, and a parser, which consumes a prefix of the input stream and
    returns what is left of it. *)

Module Construct.

Record t (A : Type) := mk {
  build : A -> result bytes;
  parse : bytes -> result (A * bytes)
}.
Arguments mk {A} build parse.
Arguments build {A}.
Arguments parse {A}.

Local Open Scope result_scope.

(** [stream_read(stream, length)]: exactly [length] bytes or a
    [StreamError]. *)
Definition stream_read (stream : bytes) (length : Z) : result (bytes * bytes) :=
  if length <? 0 then Raise StreamError
  else if Z.of_nat (List.length stream) <? length then Raise StreamError
  else Ok (firstn (Z.to_nat length) stream, skipn (Z.to_nat length) stream).

(** [construct.Byte], the unsigned 8-bit [FormatField]. *)
Definition Byte : t Z :=
  mk (fun v => if (0 <=? v) && (v <=? 255) then Ok [byte_of_Z v]
               else Raise FormatFieldError)
     (fun stream => '(d, rest) <- stream_read stream 1 ;;
                    Ok (int_from_bytes_big d, rest)).

(** [construct.Const(value, subcon)]: the value may be omitted when
    building ([None]); any other value is refused; parsing checks it. *)
Definition Const (value : Z) (subcon : t Z) : t (option Z) :=
  mk (fun obj =>
        match obj with
        | None => build subcon value
        | Some v => if v =? value then build subcon value else Raise ConstError
        end)
     (fun stream => '(v, rest) <- parse subcon stream ;;
                    if v =? value then Ok (Some v, rest) else Raise ConstError).

(** [construct.GreedyBytes]: the rest of the stream. *)
Definition GreedyBytes : t bytes :=
  mk (fun obj => Ok obj) (fun stream => Ok (stream, [])).

(** [construct.Prefixed(lengthfield, subcon)]: the sub-construct's bytes
    preceded by their count. Parsing reads the count, then that many bytes,
    and runs the sub-construct on those bytes alone. *)
Definition Prefixed {A} (lengthfield : t Z) (subcon : t A) : t A :=
  mk (fun obj => data <- build subcon obj ;;
                 len <- build lengthfield (Z.of_nat (List.length data)) ;;
                 Ok (len ++ data))
     (fun stream => '(len, rest) <- parse lengthfield stream ;;
                    '(data, rest') <- stream_read rest len ;;
                    '(obj, _) <- parse subcon data ;;
                    Ok (obj, rest')).

(** [construct.Padded(length, subcon)]: the sub-construct followed by
    zero bytes up to [length]; a [PaddingError] when the sub-construct
    produced or consumed more than [length] bytes. *)
Definition Padded {A} (length : nat) (subcon : t A) : t A :=
  mk (fun obj => data <- build subcon obj ;;
                 if (length <? List.length data)%nat then Raise PaddingError
                 else Ok (data ++ zeros (length - List.length data)))
     (fun stream => '(obj, rest) <- parse subcon stream ;;
                    let consumed := (List.length stream - List.length rest)%nat in
                    if (length <? consumed)%nat then Raise PaddingError
                    else '(_, rest') <- stream_read rest (Z.of_nat (length - consumed)) ;;
                         Ok (obj, rest')).

(** [construct.Struct] with three members, built and parsed in order. *)
Definition Struct3 {A B C} (a : t A) (b : t B) (c : t C) : t (A * B * C) :=
  mk (fun '(x, y, z) => da <- build a x ;;
                        db <- build b y ;;
                        dc <- build c z ;;
                        Ok (da ++ db ++ dc))
     (fun stream => '(x, r1) <- parse a stream ;;
                    '(y, r2) <- parse b r1 ;;
                    '(z, r3) <- parse c r2 ;;
                    Ok ((x, y, z), r3)).

End Construct.

(** ** Module constants *)

Definition ABBOTT_VENDOR_ID : Z := 0x1A61.

Definition _AUTH_ENC_MASTER_KEY : Z := 0xdeadbeef.
Definition _AUTH_MAC_MASTER_KEY : Z := 0xdeadbeef.
Definition _SESS_ENC_MASTER_KEY : Z := 0xdeadbeef.
Definition _SESS_MAC_MASTER_KEY : Z := 0xdeadbeef.

Definition _INIT_COMMAND : Z := 0x01.
Definition _INIT_RESPONSE : Z := 0x71.

Definition _KEEPALIVE_RESPONSE : Z := 0x22.
Definition _UNKNOWN_MESSAGE_RESPONSE : Z := 0x30.

Definition _ENCRYPTION_SETUP_COMMAND : Z := 0x14.
Definition _ENCRYPTION_SETUP_RESPONSE : Z := 0x33.

Definition _ALWAYS_UNENCRYPTED_MESSAGES : list Z :=
  [ _INIT_COMMAND; 0x04; 0x05; 0x06; 0x0C; 0x0D;
    _ENCRYPTION_SETUP_COMMAND; 0x15; _ENCRYPTION_SETUP_RESPONSE;
    0x34; 0x35; _INIT_RESPONSE; _KEEPALIVE_RESPONSE ].

(** [x in t] for a tuple of integers. *)
Definition Z_in (x : Z) (t : list Z) : bool := existsb (Z.eqb x) t.

(** A message as [read_response] returns it: [(message_type, content)]. *)
Definition message := (Z * bytes)%type.

Definition _create_matcher (message_type : Z) (content : option bytes)
  : message -> bool :=
  fun m =>
    (fst m =? message_type) &&
    match content with
    | None => true
    | Some c => bytes_eqb c (snd m)
    end.

Definition _is_init_reply := _create_matcher _INIT_RESPONSE (Some [x01]).
Definition _is_keepalive_response := _create_matcher _KEEPALIVE_RESPONSE None.
Definition _is_unknown_message_error :=
  _create_matcher _UNKNOWN_MESSAGE_RESPONSE (Some [x85]).
Definition _is_encryption_missing_error :=
  _create_matcher _ENCRYPTION_SETUP_RESPONSE (Some [x15]).
Definition _is_encryption_setup_error :=
  _create_matcher _ENCRYPTION_SETUP_RESPONSE (Some [x14]).

(** [_FREESTYLE_MESSAGE]: report id 0, the message type, and the command
    behind its length byte, padded to 63 bytes. *)
Definition _FREESTYLE_MESSAGE : Construct.t (option Z * Z * bytes) :=
  Construct.Struct3
    (Construct.Const 0 Construct.Byte)
    Construct.Byte
    (Construct.Padded 63 (Construct.Prefixed Construct.Byte Construct.GreedyBytes)).

(** [_FREESTYLE_MESSAGE.build({"message_type": ..., "command": ...})]. *)
Definition build_message (message_type : Z) (command : bytes) : result bytes :=
  Construct.build _FREESTYLE_MESSAGE (None, message_type, command).

(** [_FREESTYLE_MESSAGE.parse(frame)], keeping the two named members the
    module sets when it builds. *)
Definition parse_message (frame : bytes) : result message :=
  match Construct.parse _FREESTYLE_MESSAGE frame with
  | Ok ((_, message_type, command), _) => Ok (message_type, command)
  | Raise e => Raise e
  end.

(** ** The regular expressions of the module

    The fragment of Python's [re] the three patterns are written in, with its
    backtracking order: a greedy repetition tries the longest run first, an
    alternation its left branch first, and [search] the leftmost start. All
    patterns are bytes patterns; [Dot] is [.] under [re.DOTALL]. *)

Module Re.

Inductive charset :=
| Dot
| Ranges (rs : list (byte * byte)).

Definition charset_mem (cs : charset) (b : byte) : bool :=
  match cs with
  | Dot => true
  | Ranges rs =>
      existsb (fun r => (byte_val (fst r) <=? byte_val b) &&
                        (byte_val b <=? byte_val (snd r))) rs
  end.

Inductive t :=
| Lit (l : bytes)
| Star (cs : charset)
| Plus (cs : charset)
| Repeat (n : nat) (cs : charset)
| Cat (r1 r2 : t)
| Alt (r1 r2 : t)
| Group (name : string) (r : t)
| Bol
| Eol.

(** The named groups of a match, latest first. *)
Definition groups := list (string * bytes).

Section Matcher.
Context {A : Type}.

(** The literal [l] at the head of [s]: what follows it. *)
Fixpoint lit (l s : bytes) : option bytes :=
  match l, s with
  | [], _ => Some s
  | _ :: _, [] => None
  | a :: l', b :: s' => if Byte.eqb a b then lit l' s' else None
  end.

(** [cs*], greedy: the continuation is tried after the longest run first,
    then after each shorter one. *)
Fixpoint star (cs : charset) (pos : nat) (s : bytes)
         (k : nat -> bytes -> option A) : option A :=
  match s with
  | c :: s' =>
      if charset_mem cs c then
        match star cs (S pos) s' k with
        | Some r => Some r
        | None => k pos s
        end
      else k pos s
  | [] => k pos s
  end.

(** [cs{n}]. *)
Fixpoint times (n : nat) (cs : charset) (pos : nat) (s : bytes)
         (k : nat -> bytes -> option A) : option A :=
  match n with
  | O => k pos s
  | S n' =>
      match s with
      | c :: s' => if charset_mem cs c then times n' cs (S pos) s' k else None
      | [] => None
      end
  end.

(** [run r pos s g k]: match [r] at offset [pos], where [s] is the rest
    of the subject, and hand the end of the match to [k]. *)
Fixpoint run (r : t) (pos : nat) (s : bytes) (g : groups)
         (k : nat -> bytes -> groups -> option A) : option A :=
  match r with
  | Lit l =>
      match lit l s with
      | Some rest => k (pos + List.length l)%nat rest g
      | None => None
      end
  | Star cs => star cs pos s (fun p rest => k p rest g)
  | Plus cs => times 1 cs pos s (fun p rest => star cs p rest (fun p' rest' => k p' rest' g))
  | Repeat n cs => times n cs pos s (fun p rest => k p rest g)
  | Cat r1 r2 => run r1 pos s g (fun p rest g' => run r2 p rest g' k)
  | Alt r1 r2 =>
      match run r1 pos s g k with
      | Some x => Some x
      | None => run r2 pos s g k
      end
  | Group name r' =>
      run r' pos s g (fun p rest g' => k p rest ((name, firstn (p - pos) s) :: g'))
  | Bol => if Nat.eqb pos 0 then k pos s g else None
  | Eol =>
      match s with
      | [] => k pos s g
      | [c] => if Byte.eqb c LF then k pos s g else None
      | _ => None
      end
  end.
End Matcher.

(** [pattern.search(s)], scanning the start offsets from [pos] on. *)
Fixpoint search_from (r : t) (pos : nat) (s : bytes) : option groups :=
  match run r pos s [] (fun _ _ g => Some g) with
  | Some g => Some g
  | None =>
      match s with
      | [] => None
      | _ :: s' => search_from r (S pos) s'
      end
  end.

Definition search (r : t) (s : bytes) : option groups := search_from r 0 s.

(** [match.group(name)]. *)
Fixpoint group (m : groups) (name : string) : result bytes :=
  match m with
  | [] => Raise IndexError
  | (n, v) :: m' => if String.eqb n name then Ok v else group m' name
  end.

Definition digit : charset := Ranges [(x30, x39)].
Definition upper_hex : charset := Ranges [(x30, x39); (x41, x46)].

End Re.

Fixpoint cat_all (rs : list Re.t) : Re.t :=
  match rs with
  | [] => Re.Lit []
  | [r] => r
  | r :: rs' => Re.Cat r (cat_all rs')
  end.

(** [re.compile(b"CMD (?:OK|Fail!)")]. *)
Definition _TEXT_COMPLETION_RE : Re.t :=
  Re.Cat (Re.Lit (b_ "CMD ")) (Re.Alt (Re.Lit (b_ "OK")) (Re.Lit (b_ "Fail!"))).

(** The pattern of a text reply, compiled with [re.DOTALL]: start of the
    subject, group [message] (any bytes, greedy), [CKSM:], group [checksum]
    ([[0-9A-F]{8}]), CR LF, [CMD ], group [status] ([OK|Fail!]), CR LF, end. *)
Definition _TEXT_REPLY_FORMAT : Re.t :=
  cat_all
    [ Re.Bol;
      Re.Group "message" (Re.Star Re.Dot);
      Re.Lit (b_ "CKSM:");
      Re.Group "checksum" (Re.Repeat 8 Re.upper_hex);
      Re.Lit CRLF;
      Re.Lit (b_ "CMD ");
      Re.Group "status" (Re.Alt (Re.Lit (b_ "OK")) (Re.Lit (b_ "Fail!")));
      Re.Lit CRLF;
      Re.Eol ].

(** The pattern of a multirecord message, compiled with [re.DOTALL]: start
    of the subject, group [message] (one or more bytes, greedy, then CR LF),
    group [count] ([[0-9]+]), a comma, group [checksum] ([[0-9A-F]{8}]),
    CR LF, end. *)
Definition _MULTIRECORDS_FORMAT : Re.t :=
  cat_all
    [ Re.Bol;
      Re.Group "message" (Re.Cat (Re.Plus Re.Dot) (Re.Lit CRLF));
      Re.Group "count" (Re.Plus Re.digit);
      Re.Lit (b_ ",");
      Re.Group "checksum" (Re.Repeat 8 Re.upper_hex);
      Re.Lit CRLF;
      Re.Eol ].

(** What [_MULTIRECORDS_FORMAT] matches after its message group. *)
Definition multirecord_trailer : Re.t :=
  cat_all
    [ Re.Group "count" (Re.Plus Re.digit);
      Re.Lit (b_ ",");
      Re.Group "checksum" (Re.Repeat 8 Re.upper_hex);
      Re.Lit CRLF;
      Re.Eol ].

(** ** The additive checksum *)

(** A [str] as its code points. *)
Definition str := list Z.

Inductive AnyStr :=
| Bytes (b : bytes)
| Str (s : str).

Definition hex_digit_value (b : byte) : option Z :=
  let v := byte_val b in
  if (48 <=? v) && (v <=? 57) then Some (v - 48)
  else if (65 <=? v) && (v <=? 70) then Some (v - 55)
  else if (97 <=? v) && (v <=? 102) then Some (v - 87)
  else None.

(** The bytes [int] takes for blanks: the space and the bytes 9 to 13. *)
Definition is_space (b : byte) : bool :=
  let v := byte_val b in (v =? 32) || ((9 <=? v) && (v <=? 13)).

Fixpoint skip_spaces (l : bytes) : bytes :=
  match l with
  | [] => []
  | b :: l' => if is_space b then skip_spaces l' else l
  end.

(** The run of digits [int] reads in base 16: hexadecimal digits in either
    case, with single underscores between them; a doubled underscore or one
    at the end of the run is refused. The value read, and what follows the
    run. *)
Fixpoint int_base16_digits (acc : Z) (after_underscore : bool) (l : bytes)
  : result (Z * bytes) :=
  match l with
  | [] => if after_underscore then Raise ValueError else Ok (acc, [])
  | d :: l' =>
      match hex_digit_value d with
      | Some v => int_base16_digits (acc * 16 + v) false l'
      | None =>
          if after_underscore then Raise ValueError
          else if Byte.eqb d "_" then int_base16_digits acc true l'
          else Ok (acc, l)
      end
  end.

(** [int(x, 16)] on a bytes object: blanks, an optional sign, an optional
    [0x] or [0X] that one underscore may follow, the run of digits, which
    does not start with an underscore and holds one digit at least, and
    blanks up to the end; anything else is a [ValueError]. *)
Definition int_base16 (x : bytes) : result Z :=
  let s := skip_spaces x in
  let negative :=
    match s with
    | c :: _ => Byte.eqb c "-"
    | [] => false
    end in
  let s :=
    match s with
    | c :: s' => if Byte.eqb c "+" || Byte.eqb c "-" then s' else s
    | [] => s
    end in
  let s :=
    match s with
    | zero :: x :: s' =>
        if Byte.eqb zero "0" && (Byte.eqb x "x" || Byte.eqb x "X")
        then match s' with
             | u :: s'' => if Byte.eqb u "_" then s'' else s'
             | [] => s'
             end
        else s
    | _ => s
    end in
  match s with
  | [] => Raise ValueError
  | c :: _ =>
      if Byte.eqb c "_" then Raise ValueError
      else
        ('(v, rest) <- int_base16_digits 0 false s ;;
         if Nat.eqb (List.length rest) (List.length s) then Raise ValueError
         else
           match skip_spaces rest with
           | [] => Ok (if negative then - v else v)
           | _ :: _ => Raise ValueError
           end)%result
  end.

(** [sum(...)] over integers. *)
Definition sum (l : list Z) : Z := fold_left Z.add l 0.

Definition _verify_checksum (message : AnyStr) (expected_checksum_hex : bytes)
  : result unit :=
  (expected_checksum <- int_base16 expected_checksum_hex ;;
   let all_bytes :=
     match message with
     | Bytes b => map byte_val b
     | Str s => s
     end in
   let calculated_checksum := sum all_bytes in
   if negb (expected_checksum =? calculated_checksum)
   then Raise (ChecksumError expected_checksum calculated_checksum)
   else Ok tt)%result.

(** The device's side of the checksum: eight upper-case hexadecimal digits. *)
Definition hex_digit (v : Z) : byte :=
  if v <? 10 then byte_of_Z (48 + v) else byte_of_Z (55 + v).

Fixpoint hex_digits (n : nat) (v : Z) (acc : bytes) : bytes :=
  match n with
  | O => acc
  | S n' => hex_digits n' (v / 16) (hex_digit (v mod 16) :: acc)
  end.

Definition hex8 (v : Z) : bytes := hex_digits 8 v [].

(** [s.split("\r\n")] on a [str]. *)
Fixpoint split_crlf (s : str) (line : str) : list str :=
  match s with
  | [] => [rev line]
  | c :: s' =>
      match s' with
      | d :: s'' =>
          if (c =? 13) && (d =? 10) then rev line :: split_crlf s'' []
          else split_crlf s' (c :: line)
      | [] => [rev (c :: line)]
      end
  end.

(** What [query_multirecord] returns: [iter(())], or the [csv.reader]
    object over the lines it was given. *)
Inductive record_iterator :=
| EmptyIterator
| CsvReader (lines : list str).

(** ** The session and its transport *)

(** Modelled from the spec: the HID transport adapter
    ([freestyle_hid._hidwrapper] is not among the sources). Section 4.1 gives
    it [write(frame)] and a blocking [read()] that returns the next complete
    report. The handle is the queue of reports the device will deliver and
    the log of the reports written to it; a read on an empty queue, which
    would block for ever, is answered with [ReadBlocked]. *)
#[projections(primitive)]
Record HidWrapper := mkHid {
  pending : list bytes;
  written : list bytes
}.

(** Modelled from the spec: [HidWrapper.open], opening the device that will
    deliver the reports [device]; nothing has been written yet. *)
Definition HidWrapper_open (device : list bytes) : HidWrapper :=
  mkHid device [].

(** Modelled from the spec: [read()], the next complete report. *)
Definition HidWrapper_read (h : HidWrapper) : result bytes * HidWrapper :=
  match pending h with
  | [] => (Raise ReadBlocked, h)
  | report :: rest => (Ok report, mkHid rest (written h))
  end.

(** Modelled from the spec: [write(frame)]. *)
Definition HidWrapper_write (h : HidWrapper) (data : bytes) : HidWrapper :=
  mkHid (pending h) (written h ++ [data]).

(** The attributes of a [Session] object. [crypt_enc] and [crypt_mac] do
    not exist until the handshake sets them; they hold the key the
    [SpeckEncrypt] or [SpeckCMAC] object was made from. *)
#[projections(primitive)]
Record Session := mkSession {
  _handle : HidWrapper;
  _text_message_type : Z;
  _text_reply_message_type : Z;
  _encoding : string;
  _encrypted_protocol : bool;
  crypt_enc : option Z;
  crypt_mac : option Z
}.

(** [Session.__init__], on the reports of the device that is opened. *)
Definition Session_init (device : list bytes) (product_id : option Z)
           (text_message_type text_reply_message_type : Z) (encoding : string)
  : Session :=
  mkSession (HidWrapper_open device) text_message_type text_reply_message_type
            encoding
            (match product_id with
             | Some pid => Z_in pid [0x3950]
             | None => false
             end)
            None None.

Definition set_handle (self : Session) (h : HidWrapper) : Session :=
  mkSession h (_text_message_type self) (_text_reply_message_type self)
            (_encoding self) (_encrypted_protocol self)
            (crypt_enc self) (crypt_mac self).

Definition set_crypt_enc (self : Session) (k : Z) : Session :=
  mkSession (_handle self) (_text_message_type self)
            (_text_reply_message_type self) (_encoding self)
            (_encrypted_protocol self) (Some k) (crypt_mac self).

Definition set_crypt_mac (self : Session) (k : Z) : Session :=
  mkSession (_handle self) (_text_message_type self)
            (_text_reply_message_type self) (_encoding self)
            (_encrypted_protocol self) (crypt_enc self) (Some k).

(** The session keys, as the pair the specification speaks of. *)
Definition session_keys (self : Session) : option Z * option Z :=
  (crypt_enc self, crypt_mac self).

(** The state a method runs in: the session object and the generator behind
    [random.randbytes], given as the bytes it will produce and the number
    already drawn. *)
#[projections(primitive)]
Record World := mkWorld {
  session : Session;
  entropy : nat -> byte;
  drawn : nat
}.

(** A method: it returns or raises, and leaves a state either way. *)
Definition M (A : Type) := World -> result A * World.

Definition ret {A} (a : A) : M A := fun w => (Ok a, w).
Definition raise {A} (e : exn) : M A := fun w => (Raise e, w).
Definition bind {A B} (c : M A) (k : A -> M B) : M B :=
  fun w =>
    match c w with
    | (Ok a, w') => k a w'
    | (Raise e, w') => (Raise e, w')
    end.
Definition lift {A} (r : result A) : M A := fun w => (r, w).
Definition get_self : M Session := fun w => (Ok (session w), w).
Definition put_self (s : Session) : M unit :=
  fun w => (Ok tt, mkWorld s (entropy w) (drawn w)).

Declare Scope method_scope.
Delimit Scope method_scope with M.
Bind Scope method_scope with M.
Notation "x <- c ;; k" := (bind c (fun x => k))
  (at level 61, c at next level, right associativity) : method_scope.
Notation "' p <- c ;; k" := (bind c (fun x => match x with p => k end))
  (at level 61, p pattern, c at next level, right associativity) : method_scope.
Notation "c ;; k" := (bind c (fun _ => k))
  (at level 61, right associativity) : method_scope.

(** [self._handle.read()] and [self._handle.write(data)]. *)
Definition handle_read : M bytes :=
  fun w =>
    let (r, h) := HidWrapper_read (_handle (session w)) in
    (r, mkWorld (set_handle (session w) h) (entropy w) (drawn w)).

Definition handle_write (data : bytes) : M unit :=
  fun w =>
    (Ok tt, mkWorld (set_handle (session w) (HidWrapper_write (_handle (session w)) data))
                    (entropy w) (drawn w)).

(** The state [w] with [reports] as the queue of its handle. *)
Definition set_pending (w : World) (reports : list bytes) : World :=
  mkWorld (set_handle (session w) (mkHid reports (written (_handle (session w)))))
          (entropy w) (drawn w).

(** [random.randbytes(n)]. *)
Definition randbytes (n : nat) : M bytes :=
  fun w => (Ok (map (entropy w) (seq (drawn w) n)),
            mkWorld (session w) (entropy w) (drawn w + n)%nat).

(** Reading an attribute that may not have been set. *)
Definition attr {A} (a : option A) : result A :=
  match a with
  | Some v => Ok v
  | None => Raise AttributeError
  end.

(** [output[a:b] = v] on a bytearray, for [a <= b]. *)
Definition set_slice (a b : nat) (output v : bytes) : bytes :=
  firstn a output ++ v ++ skipn b output.

(** ** The collaborators of the module

    [freestyle_hid._freestyle_encryption] is not among the sources, and
    [bytes.decode] belongs to Python: the session code is embedded over any
    implementation of them. A [SpeckEncrypt] or [SpeckCMAC] object is
    identified with the key it was constructed from. *)
Class Primitives := {
  (** [SpeckEncrypt(key).encrypt(iv, data)] *)
  SpeckEncrypt_encrypt : Z -> Z -> bytes -> bytes;
  (** [SpeckEncrypt(key).decrypt(iv, data)] *)
  SpeckEncrypt_decrypt : Z -> Z -> bytes -> bytes;
  (** [SpeckCMAC(key).sign(data)] *)
  SpeckCMAC_sign : Z -> bytes -> Z;
  (** [SpeckCMAC(key).derive(label, context)] *)
  SpeckCMAC_derive : Z -> bytes -> bytes -> Z;
  (** [data.decode(encoding, "replace")]; [None] when Python knows no codec
      of that name *)
  decode_replace : string -> bytes -> option str
}.

Section Methods.
Context {P : Primitives}.

Definition encrypt_message (self : Session) (packet : bytes) : result bytes :=
  (let output := packet in
   enc <- attr (crypt_enc self) ;;
   let encrypted := SpeckEncrypt_encrypt enc 0xFF (slice 2 57 packet) in
   let output := set_slice 2 57 output encrypted in
   let output := set_slice 57 61 output (zeros 4) in
   mac_key <- attr (crypt_mac self) ;;
   let mac := SpeckCMAC_sign mac_key (slice 1 61 output) in
   tag <- int_to_bytes_little mac 8 ;;
   let output := set_slice 61 65 output (slice_from 4 tag) in
   Ok output)%result.

Definition decrypt_message (self : Session) (packet : bytes) : result bytes :=
  (let output := packet in
   mac_key <- attr (crypt_mac self) ;;
   let mac := SpeckCMAC_sign mac_key (slice_to 60 packet) in
   tag <- int_to_bytes_little mac 8 ;;
   let mac := slice_from 4 tag in
   assert (bytes_eqb mac (slice 60 64 packet)) ;;
   let iv := Z.shiftl (int_from_bytes_big (slice 56 60 packet)) 8 in
   enc <- attr (crypt_enc self) ;;
   let output := set_slice 1 56 output (SpeckEncrypt_decrypt enc iv (slice 1 56 packet)) in
   Ok output)%result.

Definition send_command (message_type : Z) (command : bytes) (encrypted : bool)
  : M unit :=
  (usb_packet <- lift (build_message message_type command) ;;
   self <- get_self ;;
   usb_packet <-
     (if _encrypted_protocol self &&
         negb (Z_in message_type _ALWAYS_UNENCRYPTED_MESSAGES)
      then lift (encrypt_message self usb_packet)
      else ret usb_packet) ;;
   handle_write usb_packet)%M.

(** Lines 225 to 236 of [read_response]: from the report that was read to
    the message, a function of the session's attributes and the report. *)
Definition received_message (self : Session) (usb_packet : bytes)
  : result message :=
  (assert (negb (Nat.eqb (List.length usb_packet) 0)) ;;
   first <- index usb_packet 0 ;;
   let message_type := byte_val first in
   usb_packet <-
     (if _encrypted_protocol self &&
         negb (Z_in message_type _ALWAYS_UNENCRYPTED_MESSAGES)
      then decrypt_message self usb_packet
      else Ok usb_packet) ;;
   second <- index usb_packet 1 ;;
   let message_length := byte_val second in
   let message_end_idx := 2 + message_length in
   let message_content := slice 2 (Z.to_nat message_end_idx) usb_packet in
   Ok (message_type, message_content))%result.

(** The body of [read_response]; [recur] is the call it makes to itself
    after a keep-alive. *)
Definition read_response_body (recur : M message) : M message :=
  (usb_packet <- handle_read ;;
   self <- get_self ;;
   message <- lift (received_message self usb_packet) ;;
   if _is_keepalive_response message then recur
   else if _is_unknown_message_error message
   then raise (CommandError (Literal "Invalid command"))
   else if _is_encryption_missing_error message
   then raise (CommandError (Literal "Device encryption not initialized."))
   else if _is_encryption_setup_error message
   then raise (CommandError (Literal "Device encryption initialization failed."))
   else ret message)%M.

(** [read_response] under the interpreter's recursion limit: [depth] is the
    number of nested calls of the method the interpreter has room for, each
    with the calls it makes itself. The method calls itself once for every
    keep-alive, and the call there is no room for raises [RecursionError]. *)
Fixpoint read_response_depth (depth : nat) (encrypted : bool) : M message :=
  match depth with
  | O => raise RecursionError
  | S depth' => read_response_body (read_response_depth depth' encrypted)
  end.

(** [read_response] where the recursion limit is out of reach: every call
    takes one report off the queue, so room for one more call than there
    are reports pending is room for every call the method can make. *)
Definition read_response (encrypted : bool) : M message :=
  fun w =>
    read_response_depth (S (List.length (pending (_handle (session w)))))
                        encrypted w.

Definition encryption_handshake : M unit :=
  (send_command 0x05 [] false ;;
   response <- read_response false ;;
   lift (assert (fst response =? 0x06)) ;;
   let serial := slice_to 13 (snd response) in

   let auth_enc_key := SpeckCMAC_derive _AUTH_ENC_MASTER_KEY (b_ "AuthrEnc") serial in
   let auth_enc := auth_enc_key in
   let auth_mac_key := SpeckCMAC_derive _AUTH_MAC_MASTER_KEY (b_ "AuthrMAC") serial in
   let auth_mac := auth_mac_key in

   send_command _ENCRYPTION_SETUP_COMMAND [x11] false ;;
   response <- read_response false ;;
   lift (assert (fst response =? _ENCRYPTION_SETUP_RESPONSE)) ;;
   tag <- lift (index (snd response) 0) ;;
   lift (assert (byte_val tag =? 0x16)) ;;
   let reader_rand := slice 1 9 (snd response) in
   let iv := int_from_bytes_big (slice 9 16 (snd response)) in
   driver_rand <- randbytes 8 ;;
   let resp_enc := SpeckEncrypt_encrypt auth_enc iv (reader_rand ++ driver_rand) in
   let resp_mac := SpeckCMAC_sign auth_mac ([x14; x1a; x17] ++ resp_enc ++ [x01]) in
   resp_mac <- lift (int_to_bytes_little resp_mac 8) ;;
   send_command _ENCRYPTION_SETUP_COMMAND
                ([x17] ++ resp_enc ++ [x01] ++ resp_mac) false ;;
   response <- read_response false ;;
   lift (assert (fst response =? _ENCRYPTION_SETUP_RESPONSE)) ;;
   tag <- lift (index (snd response) 0) ;;
   lift (assert (byte_val tag =? 0x18)) ;;
   let mac := SpeckCMAC_sign auth_mac ([x33; x22] ++ slice_to 24 (snd response)) in
   mac <- lift (int_to_bytes_little mac 8) ;;
   lift (assert (bytes_eqb mac (slice 24 32 (snd response)))) ;;
   let iv := int_from_bytes_big (slice 17 24 (snd response)) in
   let resp_dec := SpeckEncrypt_decrypt auth_enc iv (slice 1 17 (snd response)) in
   lift (assert (bytes_eqb (slice_to 8 resp_dec) driver_rand)) ;;
   lift (assert (bytes_eqb (slice_from 8 resp_dec) reader_rand)) ;;

   let ses_enc_key :=
     SpeckCMAC_derive _SESS_ENC_MASTER_KEY (b_ "SessnEnc")
                      (serial ++ reader_rand ++ driver_rand) in
   let ses_mac_key :=
     SpeckCMAC_derive _SESS_MAC_MASTER_KEY (b_ "SessnMAC")
                      (serial ++ reader_rand ++ driver_rand) in
   self <- get_self ;;
   put_self (set_crypt_enc self ses_enc_key) ;;
   self <- get_self ;;
   put_self (set_crypt_mac self ses_mac_key))%M.

Definition connect : M unit :=
  (self <- get_self ;;
   (if _encrypted_protocol self then encryption_handshake else ret tt) ;;
   send_command _INIT_COMMAND [] false ;;
   response <- read_response false ;;
   if negb (_is_init_reply response)
   then raise (ConnectionError (fst response) (snd response))
   else ret tt)%M.

(** The [while True] loop of [_send_text_command_raw], run at most [fuel]
    times. *)
Fixpoint text_reply_loop (fuel : nat) (full_content : bytes) : M bytes :=
  match fuel with
  | O => raise ReadBlocked
  | S fuel' =>
      (response <- read_response false ;;
       let message_type := fst response in
       let content := snd response in
       self <- get_self ;;
       if negb (message_type =? _text_reply_message_type self)
       then raise (CommandError (TypeMismatch message_type content))
       else
         let full_content := full_content ++ content in
         match Re.search _TEXT_COMPLETION_RE full_content with
         | Some _ => ret full_content
         | None => text_reply_loop fuel' full_content
         end)%M
  end.

(** Every turn of the loop takes at least one report off the queue, so one
    more turn than there are reports pending is never used up. *)
Definition _send_text_command_raw (command : bytes) : M bytes :=
  (self <- get_self ;;
   send_command (_text_message_type self) command false ;;
   self <- get_self ;;
   full_content <-
     text_reply_loop (S (List.length (pending (_handle self)))) [] ;;
   match Re.search _TEXT_REPLY_FORMAT full_content with
   | None => raise (CommandError (ReprOf full_content))
   | Some m =>
       message <- lift (Re.group m "message") ;;
       checksum <- lift (Re.group m "checksum") ;;
       lift (_verify_checksum (Bytes message) checksum) ;;
       status <- lift (Re.group m "status") ;;
       if negb (bytes_eqb status (b_ "OK"))
       then raise (CommandError (ReprOf message))
       else ret message
   end)%M.

(** [data.decode(self._encoding, "replace")]. *)
Definition decode (data : bytes) : M str :=
  (self <- get_self ;;
   match decode_replace (_encoding self) data with
   | Some text => ret text
   | None => raise LookupError
   end)%M.

Definition send_text_command (command : bytes) : M str :=
  (message <- _send_text_command_raw command ;;
   decode message)%M.

Definition query_multirecord (command : bytes) : M record_iterator :=
  (message <- _send_text_command_raw command ;;
   if bytes_eqb message (b_ "Log Empty" ++ CRLF) then ret EmptyIterator
   else
     match Re.search _MULTIRECORDS_FORMAT message with
     | None => raise (CommandError (ReprOf message))
     | Some m =>
         records_raw <- lift (Re.group m "message") ;;
         checksum <- lift (Re.group m "checksum") ;;
         lift (_verify_checksum (Bytes records_raw) checksum) ;;
         records_str <- decode records_raw ;;
         ret (CsvReader (split_crlf records_str []))
     end)%M.

End Methods.

(** ** Sample collaborators

    Small implementations of the collaborators, for running the methods on
    concrete inputs: an XOR stream for the cipher, checksum-like functions
    for the MAC and the key derivation, ASCII with replacement for the
    codec. They stand in for the Speck primitives only where a concrete run
    is needed. *)
Module Sample.

Definition xor_byte (k : Z) (b : byte) : byte :=
  byte_of_Z (Z.lxor (byte_val b) (k mod 256)).

Definition encrypt (key iv : Z) (data : bytes) : bytes :=
  map (xor_byte (key + iv)) data.

Definition sign (key : Z) (data : bytes) : Z :=
  (key * 0x100000001 + 257 * sum (map byte_val data)
   + Z.of_nat (List.length data)) mod 2 ^ 64.

Definition derive (key : Z) (label context : bytes) : Z :=
  fold_left (fun acc b => (acc * 257 + byte_val b) mod 2 ^ 128)
            (label ++ context) key.

Definition decode_ascii (data : bytes) : str :=
  map (fun b => if byte_val b <? 128 then byte_val b else 0xFFFD) data.

Definition decode (encoding : string) (data : bytes) : option str :=
  if String.eqb encoding "ascii" then Some (decode_ascii data) else None.

#[export] Instance primitives : Primitives := {
  SpeckEncrypt_encrypt := encrypt;
  SpeckEncrypt_decrypt := encrypt;
  SpeckCMAC_sign := sign;
  SpeckCMAC_derive := derive;
  decode_replace := decode
}.

(** A report as the device delivers it: type, length, content, zero
    padding to 64 bytes. *)
Definition report (message_type : Z) (content : bytes) : bytes :=
  byte_of_Z message_type :: byte_of_Z (Z.of_nat (List.length content)) ::
  content ++ zeros (62 - List.length content).

(** The [n]-th byte the sample random generator produces. *)
Definition random_byte (n : nat) : byte := byte_of_Z (Z.of_nat n).

Definition world (s : Session) : World := mkWorld s random_byte 0.

(** Sessions on a device that will deliver [device]: one of the plain
    profile, one of the encrypted profile. *)
Definition plain_session (device : list bytes) : Session :=
  Session_init device None 0x60 0x60 "ascii".

Definition encrypted_session (device : list bytes) : Session :=
  Session_init device (Some 0x3950) 0x60 0x60 "ascii".

(** An encrypted-profile session whose keys are 5 and 7. *)
Definition keyed_session : Session :=
  set_crypt_mac (set_crypt_enc (encrypted_session []) 5) 7.

(** The first 60 bytes of a report, and two ways of completing it: with
    the four low bytes of its tag, and with the four high ones. *)
Definition report_head : bytes := [x60; x02] ++ b_ "hi" ++ zeros 56.

Definition low_tagged_report : bytes :=
  report_head ++ le_bytes 4 (sign 7 report_head).

Definition high_tagged_report : bytes :=
  report_head ++ le_bytes 4 (sign 7 report_head / 2 ^ 32).

(** The frame [build] gives for type [0x60] and payload [hi]. *)
Definition hi_frame : bytes := [x00; x60; x02] ++ b_ "hi" ++ zeros 60.

(** A byte string whose bytes add up to [2 ^ 32 + 254]. *)
Definition long_message : bytes := repeat xff (N.to_nat 16843010).

(** A multirecord reply of two records that declares seven, and the text
    reply that carries it. *)
Definition two_records : bytes := b_ "a,1" ++ CRLF ++ b_ "b,2".

Definition multirecord_reply : bytes :=
  (two_records ++ CRLF) ++ b_ "7" ++ b_ "," ++ b_ "000001AC" ++ CRLF.

Definition text_reply : bytes :=
  multirecord_reply ++ b_ "CKSM:" ++ hex8 (sum (map byte_val multirecord_reply))
  ++ CRLF ++ b_ "CMD OK" ++ CRLF.

Definition multirecord_world : World :=
  world (plain_session [report 0x60 text_reply]).

(** Worlds for runs of [read_response]: two keep-alives before two text
    reports; a keep-alive before the reply to an unknown message; a report
    of three bytes whose length byte announces 255. *)
Definition keepalive_world : World :=
  world (plain_session
           [ report 0x22 [x00]; report 0x22 [x01; x02];
             report 0x60 (b_ "hi"); report 0x60 (b_ "yo") ]).

Definition unknown_message_world : World :=
  world (plain_session [report 0x22 [x00]; report 0x30 [x85]]).

Definition short_report_world : World :=
  world (plain_session [[x60; xff; x01]]).

(** What a device sends through one [connect] on the encrypted profile:
    its serial number, its challenge, its answer to the driver's
    challenge, and the init reply. *)
Definition handshake_script (serial reader_rand driver_rand iv iv2 : bytes)
  : list bytes :=
  let auth_enc := derive _AUTH_ENC_MASTER_KEY (b_ "AuthrEnc") (firstn 13 serial) in
  let auth_mac := derive _AUTH_MAC_MASTER_KEY (b_ "AuthrMAC") (firstn 13 serial) in
  let challenge := [x16] ++ reader_rand ++ iv in
  let answer :=
    [x18] ++ encrypt auth_enc (int_from_bytes_big iv2) (driver_rand ++ reader_rand)
          ++ iv2 in
  let mac := le_bytes 8 (sign auth_mac ([x33; x22] ++ answer)) in
  [ report 0x06 serial; report 0x33 challenge; report 0x33 (answer ++ mac);
    report 0x71 [x01] ].

Definition serial : bytes := b_ "JCGZ123-T4567".
Definition counter : bytes := [x00; x00; x00; x00; x00; x00; x01].

(** A device that goes through the handshake twice, with a new challenge
    the second time. *)
Definition twice_connected_world : World :=
  world (encrypted_session
           (handshake_script serial (b_ "readerAA") (map random_byte (seq 0 8))
                             counter counter ++
            handshake_script serial (b_ "readerBB") (map random_byte (seq 8 8))
                             counter counter)).

End Sample.

(** ** Notions the properties are stated with *)

(** A report of type [0x22] that has its length byte: a keep-alive with any
    content. *)
Definition keepalive_report (report : bytes) : Prop :=
  match report with
  | first :: _ :: _ => first = x22
  | _ => False
  end.

(** The three replies [read_response] turns into a [CommandError]. *)
Definition error_reply (m : message) : Prop :=
  m = (0x30, [x85]) \/ m = (0x33, [x15]) \/ m = (0x33, [x14]).

(** [s'] is [s] with the byte at one position replaced by another value. *)
Inductive single_byte_mutation : bytes -> bytes -> Prop :=
| mutation_at (before after : bytes) (b b' : byte) :
    b <> b' ->
    single_byte_mutation (before ++ b :: after) (before ++ b' :: after).

(** The public methods of a session, as calls. *)
Inductive call :=
| Call_connect
| Call_encryption_handshake
| Call_send_command (message_type : Z) (command : bytes) (encrypted : bool)
| Call_read_response (encrypted : bool)
| Call_send_text_command (command : bytes)
| Call_query_multirecord (command : bytes).

(** The state a call leaves, whether it returns or raises. *)
Definition after_call {P : Primitives} (c : call) (w : World) : World :=
  match c with
  | Call_connect => snd (connect w)
  | Call_encryption_handshake => snd (encryption_handshake w)
  | Call_send_command t command e => snd (send_command t command e w)
  | Call_read_response e => snd (read_response e w)
  | Call_send_text_command command => snd (send_text_command command w)
  | Call_query_multirecord command => snd (query_multirecord command w)
  end.

(** Whether a call runs the encryption handshake. *)
Definition runs_handshake (c : call) (w : World) : bool :=
  match c with
  | Call_connect => _encrypted_protocol (session w)
  | Call_encryption_handshake => true
  | _ => false
  end.

(** A method that leaves the session keys as they were, however it ends. *)
Definition keeps_keys {A} (c : M A) : Prop :=
  forall w, session_keys (session (snd (c w))) = session_keys (session w).

(** A method that leaves the session keys as they were when it raises. *)
Definition keeps_keys_on_raise {A} (c : M A) : Prop :=
  forall w e, fst (c w) = Raise e ->
              session_keys (session (snd (c w))) = session_keys (session w).

(** ** Notions the properties of sending, connecting and text commands are
    stated with *)

(** The 55 bytes of a frame that [encrypt_message] encrypts: the length byte
    and the first 54 bytes of the padded command. *)
Definition protected_region (command : bytes) : bytes :=
  byte_of_Z (Z.of_nat (List.length command)) ::
  firstn 54 (command ++ zeros (62 - List.length command)).

(** The frames of the init command and of the first two handshake
    commands. *)
Definition init_frame : bytes := [x00; x01; x00] ++ zeros 62.

(** What [_TEXT_REPLY_FORMAT] matches after its message group. *)
Definition text_reply_trailer : Re.t :=
  cat_all
    [ Re.Lit (b_ "CKSM:");
      Re.Group "checksum" (Re.Repeat 8 Re.upper_hex);
      Re.Lit CRLF;
      Re.Lit (b_ "CMD ");
      Re.Group "status" (Re.Alt (Re.Lit (b_ "OK")) (Re.Lit (b_ "Fail!")));
      Re.Lit CRLF;
      Re.Eol ].

(** The two lines that end a text reply. *)
Definition text_trailer (checksum status : bytes) : bytes :=
  b_ "CKSM:" ++ checksum ++ CRLF ++ b_ "CMD " ++ status ++ CRLF.

(** One step of the loop of [_send_text_command_raw], seen from the device:
    keep-alives, then the report whose content the loop adds. *)
Record chunk := mkChunk {
  chunk_keepalives : list bytes;
  chunk_report : bytes;
  chunk_content : bytes
}.

Definition chunk_reports (c : chunk) : list bytes :=
  chunk_keepalives c ++ [chunk_report c].

(** The reports of [c] are keep-alives followed by a report of the text
    reply type that carries the content of [c]. *)
Definition text_chunk {P : Primitives} (self : Session) (c : chunk) : Prop :=
  Forall keepalive_report (chunk_keepalives c) /\
  received_message self (chunk_report c)
  = Ok (_text_reply_message_type self, chunk_content c).

(** The text reply type is none of the types [read_response] may keep for
    itself: the keep-alive type and the two types of its error replies. *)
Definition reply_type_is_free (self : Session) : Prop :=
  _text_reply_message_type self <> 0x22 /\
  _text_reply_message_type self <> 0x30 /\
  _text_reply_message_type self <> 0x33.

(** No completion token shows before the last content has been added to
    [acc]. *)
Fixpoint no_early_completion (acc : bytes) (contents : list bytes) : bool :=
  match contents with
  | [] => true
  | c :: rest =>
      match rest with
      | [] => true
      | _ :: _ =>
          match Re.search _TEXT_COMPLETION_RE (acc ++ c) with
          | Some _ => false
          | None => no_early_completion (acc ++ c) rest
          end
      end
  end.

(** The contents of the chunks, put together. *)
Definition reply_content (chunks : list chunk) : bytes :=
  List.concat (map chunk_content chunks).

(** The device has [chunks] and then [rest] ready for the session of [w]:
    at least one chunk, each of them keep-alives and a text reply report,
    and no completion token before the last one. *)
Definition delivers {P : Primitives} (w : World) (chunks : list chunk)
           (rest : list bytes) : Prop :=
  reply_type_is_free (session w) /\
  chunks <> [] /\
  Forall (text_chunk (session w)) chunks /\
  pending (_handle (session w)) = flat_map chunk_reports chunks ++ rest /\
  no_early_completion [] (map chunk_content chunks) = true.

(** ** Sample replies to text commands *)
Module Scenario.

(** A text reply, split by the device over two reports after the [CKSM:]
    of its trailer, with a keep-alive before the first report. *)
Definition reply_chunks (body checksum status : bytes) : list chunk :=
  [ mkChunk [Sample.report 0x22 [x00]]
            (Sample.report 0x60 (body ++ b_ "CKSM:")) (body ++ b_ "CKSM:");
    mkChunk []
            (Sample.report 0x60 (checksum ++ CRLF ++ b_ "CMD " ++ status ++ CRLF))
            (checksum ++ CRLF ++ b_ "CMD " ++ status ++ CRLF) ].

(** What the device sends after the reply. *)
Definition later : list bytes := [Sample.report 0x60 (b_ "later")].

Definition reply_world (body checksum status : bytes) : World :=
  Sample.world
    (Sample.plain_session
       (flat_map chunk_reports (reply_chunks body checksum status) ++ later)).

(** The body of a reply, and the eight digits of its checksum. *)
Definition version : bytes := b_ "2.1.2" ++ CRLF.
Definition version_checksum : bytes := hex8 (sum (map byte_val version)).

Definition log_empty : bytes := b_ "Log Empty" ++ CRLF.
Definition log_empty_checksum : bytes := hex8 (sum (map byte_val log_empty)).

(** The frame of a text command on the sample sessions. *)
Definition command_frame (command : bytes) : bytes :=
  [x00; x60; byte_of_Z (Z.of_nat (List.length command))] ++ command
  ++ zeros (62 - List.length command).

(** A keep-alive, then a message of type [0x61] where a text reply is
    expected. *)
Definition other_type_world : World :=
  Sample.world
    (Sample.plain_session
       ([Sample.report 0x22 [x00]; Sample.report 0x61 (b_ "hi")] ++ later)).

(** A reply with a completion token and no checksum line. *)
Definition bare_status_world : World :=
  Sample.world (Sample.plain_session (Sample.report 0x60 (b_ "CMD OK" ++ CRLF) :: later)).

(** A multirecord reply whose own checksum is wrong, inside a text reply
    whose checksum is right. *)
Definition bad_multirecord : bytes :=
  (Sample.two_records ++ CRLF) ++ b_ "7" ++ b_ "," ++ b_ "00000000" ++ CRLF.

Definition bad_multirecord_world : World :=
  Sample.world
    (Sample.plain_session
       [Sample.report 0x60
          (bad_multirecord
           ++ text_trailer (hex8 (sum (map byte_val bad_multirecord))) (b_ "OK"))]).

(** Worlds for [read_response] and [connect]: an empty report, a report of
    one byte, a text report before any handshake on the encrypted profile,
    an init reply after a keep-alive, another reply to the init command. *)
Definition empty_report_world : World :=
  Sample.world (Sample.plain_session ([] :: later)).

Definition one_byte_world : World :=
  Sample.world (Sample.plain_session ([x60] :: later)).

Definition unkeyed_world : World :=
  Sample.world (Sample.encrypted_session (Sample.report 0x60 (b_ "hi") :: later)).

Definition init_reply_world : World :=
  Sample.world
    (Sample.plain_session
       ([Sample.report 0x22 [x00]; Sample.report 0x71 [x01]] ++ later)).

Definition refused_init_world : World :=
  Sample.world (Sample.plain_session (Sample.report 0x71 [x00] :: later)).


(** A thousand keep-alives before a text report. *)
Definition flood_world : World :=
  Sample.world
    (Sample.plain_session
       (repeat (Sample.report 0x22 [x00]) 1000 ++ [Sample.report 0x60 (b_ "hi")])).

(** Two commands of 60 bytes that differ in their last byte only. *)
Definition long_command (last : byte) : bytes := repeat x41 59 ++ [last].

End Scenario.

(** * Properties *)

(** ** Bytes and integers *)

Lemma byte_val_range (b : byte) : 0 <= byte_val b <= 255.
Proof.
  unfold byte_val. pose proof (Byte.to_N_bounded b). lia.
Qed.

Lemma byte_of_Z_val (b : byte) : byte_of_Z (byte_val b) = b.
Proof.
  unfold byte_of_Z, byte_val.
  pose proof (Byte.to_N_bounded b).
  rewrite Z.mod_small by lia.
  rewrite N2Z.id, Byte.of_to_N. reflexivity.
Qed.

Lemma byte_val_of_Z (z : Z) : 0 <= z <= 255 -> byte_val (byte_of_Z z) = z.
Proof.
  intros Hz. unfold byte_of_Z, byte_val.
  rewrite Z.mod_small by lia.
  destruct (Byte.of_N (Z.to_N z)) as [b|] eqn:E.
  - apply Byte.to_of_N in E. rewrite E. lia.
  - apply Byte.of_N_None_iff in E. lia.
Qed.

Lemma byte_val_inj (a b : byte) : byte_val a = byte_val b -> a = b.
Proof.
  intros H. rewrite <- (byte_of_Z_val a), <- (byte_of_Z_val b), H. reflexivity.
Qed.

Lemma bytes_eqb_eq (a b : bytes) : bytes_eqb a b = true <-> a = b.
Proof.
  unfold bytes_eqb. destruct (list_eq_dec Byte.byte_eq_dec a b); split; congruence.
Qed.

Lemma bytes_eqb_refl (a : bytes) : bytes_eqb a a = true.
Proof. apply bytes_eqb_eq. reflexivity. Qed.

Lemma bytes_eqb_neq (a b : bytes) : bytes_eqb a b = false <-> a <> b.
Proof.
  unfold bytes_eqb. destruct (list_eq_dec Byte.byte_eq_dec a b); split; congruence.
Qed.

Lemma zeros_length (n : nat) : List.length (zeros n) = n.
Proof. apply repeat_length. Qed.

(** ** The frame codec *)

Ltac unfold_codec :=
  cbv [build_message parse_message _FREESTYLE_MESSAGE Construct.Struct3
       Construct.Const Construct.Byte Construct.Padded Construct.Prefixed
       Construct.GreedyBytes Construct.build Construct.parse rbind].

Ltac bool_true c :=
  replace c with true by (symmetry; repeat rewrite andb_true_iff; lia).

(** What [build] produces for a command that fits. *)
Lemma build_message_fits (t : Z) (command : bytes) :
  0 <= t <= 255 -> (List.length command <= 62)%nat ->
  build_message t command =
  Ok (x00 :: byte_of_Z t :: byte_of_Z (Z.of_nat (List.length command)) ::
      command ++ zeros (62 - List.length command)).
Proof.
  intros Ht Hlen. unfold_codec.
  bool_true ((0 <=? t) && (t <=? 255)).
  bool_true ((0 <=? Z.of_nat (List.length command)) &&
             (Z.of_nat (List.length command) <=? 255)).
  change (0 =? 0) with true. cbv iota.
  change (0 <=? 0) with true. change (0 <=? 255) with true. cbv [andb].
  change (List.length ([byte_of_Z (Z.of_nat (List.length command))] ++ command))
    with (S (List.length command)).
  destruct (Nat.ltb_spec 63 (S (List.length command))) as [H|H]; [lia|].
  replace (63 - S (List.length command))%nat with (62 - List.length command)%nat by lia.
  reflexivity.
Qed.

(** [build] refuses a command of more than 62 bytes, whatever the type. *)
Lemma build_message_too_long (t : Z) (command : bytes) :
  (62 < List.length command)%nat -> exists e, build_message t command = Raise e.
Proof.
  intros Hlen. unfold_codec.
  change (0 <=? 0) with true. change (0 <=? 255) with true. cbv [andb].
  destruct (if 0 <=? t then t <=? 255 else false); [|eauto].
  destruct (if 0 <=? Z.of_nat (List.length command)
            then Z.of_nat (List.length command) <=? 255 else false); [|eauto].
  change (List.length ([byte_of_Z (Z.of_nat (List.length command))] ++ command))
    with (S (List.length command)).
  destruct (Nat.ltb_spec 63 (S (List.length command))) as [H|H]; [eauto|lia].
Qed.

Lemma stream_read_app (a b : bytes) :
  Construct.stream_read (a ++ b) (Z.of_nat (List.length a)) = Ok (a, b).
Proof.
  unfold Construct.stream_read.
  destruct (Z.ltb_spec (Z.of_nat (List.length a)) 0) as [H|_]; [lia|].
  rewrite length_app.
  destruct (Z.ltb_spec (Z.of_nat (List.length a + List.length b))
                       (Z.of_nat (List.length a))) as [H|_]; [lia|].
  rewrite Nat2Z.id, firstn_app, Nat.sub_diag, firstn_all, firstn_O, app_nil_r.
  rewrite skipn_app, Nat.sub_diag, skipn_all. reflexivity.
Qed.

Lemma stream_read_one (b : byte) (rest : bytes) :
  Construct.stream_read (b :: rest) 1 = Ok ([b], rest).
Proof. exact (stream_read_app [b] rest). Qed.

Lemma Byte_parse_cons (b : byte) (rest : bytes) :
  Construct.parse Construct.Byte (b :: rest) = Ok (byte_val b, rest).
Proof.
  cbv [Construct.parse Construct.Byte]. rewrite stream_read_one. reflexivity.
Qed.

Lemma Prefixed_parse_command (command rest : bytes) :
  (List.length command <= 255)%nat ->
  Construct.parse (Construct.Prefixed Construct.Byte Construct.GreedyBytes)
                  (byte_of_Z (Z.of_nat (List.length command)) :: command ++ rest)
  = Ok (command, rest).
Proof.
  intros Hlen.
  change (Construct.parse (Construct.Prefixed Construct.Byte Construct.GreedyBytes)
                          (byte_of_Z (Z.of_nat (List.length command)) :: command ++ rest))
    with (rbind (Construct.parse Construct.Byte
                   (byte_of_Z (Z.of_nat (List.length command)) :: command ++ rest))
                (fun x => let (len, rest0) := x in
                          rbind (Construct.stream_read rest0 len)
                                (fun y => let (data, rest') := y in Ok (data, rest')))).
  rewrite Byte_parse_cons, byte_val_of_Z by lia.
  cbv [rbind]. rewrite stream_read_app. reflexivity.
Qed.

(** Parsing what [build] produced gives the type and the command back. *)
Lemma parse_built_message (t : Z) (command : bytes) :
  0 <= t <= 255 -> (List.length command <= 62)%nat ->
  parse_message
    (x00 :: byte_of_Z t :: byte_of_Z (Z.of_nat (List.length command)) ::
     command ++ zeros (62 - List.length command))
  = Ok (t, command).
Proof.
  intros Ht Hlen.
  set (body := byte_of_Z (Z.of_nat (List.length command)) ::
               command ++ zeros (62 - List.length command)).
  assert (Hbody : Construct.parse
            (Construct.Padded 63 (Construct.Prefixed Construct.Byte Construct.GreedyBytes))
            body = Ok (command, [])).
  { change (Construct.parse
              (Construct.Padded 63 (Construct.Prefixed Construct.Byte Construct.GreedyBytes))
              body)
      with (rbind (Construct.parse
                     (Construct.Prefixed Construct.Byte Construct.GreedyBytes) body)
                  (fun x => let (obj, rest) := x in
                     let consumed := (List.length body - List.length rest)%nat in
                     if (63 <? consumed)%nat then Raise PaddingError
                     else rbind (Construct.stream_read rest (Z.of_nat (63 - consumed)))
                                (fun y => let (_, rest') := y in Ok (obj, rest')))).
    unfold body at 1. rewrite Prefixed_parse_command by lia. cbv [rbind].
    assert (Hc : (List.length body - List.length (zeros (62 - List.length command))
                  = S (List.length command))%nat).
    { unfold body. cbn [List.length]. rewrite length_app, zeros_length. lia. }
    rewrite Hc.
    destruct (Nat.ltb_spec 63 (S (List.length command))) as [H|_]; [lia|].
    pose proof (stream_read_app (zeros (62 - List.length command)) []) as Hpad.
    rewrite app_nil_r, zeros_length in Hpad.
    replace (63 - S (List.length command))%nat
      with (62 - List.length command)%nat by lia.
    rewrite Hpad. reflexivity. }
  unfold parse_message, _FREESTYLE_MESSAGE.
  change (Construct.parse
            (Construct.Struct3 (Construct.Const 0 Construct.Byte) Construct.Byte
               (Construct.Padded 63
                  (Construct.Prefixed Construct.Byte Construct.GreedyBytes)))
            (x00 :: byte_of_Z t :: body))
    with (rbind (Construct.parse (Construct.Const 0 Construct.Byte)
                                 (x00 :: byte_of_Z t :: body))
                (fun x => let (a, r1) := x in
                   rbind (Construct.parse Construct.Byte r1)
                         (fun y => let (b, r2) := y in
                            rbind (Construct.parse
                                     (Construct.Padded 63
                                        (Construct.Prefixed Construct.Byte
                                           Construct.GreedyBytes)) r2)
                                  (fun z => let (c, r3) := z in Ok ((a, b, c), r3))))).
  change (Construct.parse (Construct.Const 0 Construct.Byte)
                          (x00 :: byte_of_Z t :: body))
    with (rbind (Construct.parse Construct.Byte (x00 :: byte_of_Z t :: body))
                (fun x => let (v, rest) := x in
                   if v =? 0 then Ok (Some v, rest) else Raise ConstError)).
  rewrite Byte_parse_cons. cbv [rbind].
  change (byte_val x00 =? 0) with true. cbv iota.
  rewrite Byte_parse_cons, Hbody, byte_val_of_Z by lia. reflexivity.
Qed.

(** C7. For a type in [0, 255]: when the payload has at most 62 bytes,
    [build] gives a frame of 65 bytes and parsing that frame gives the type
    and the payload back; and [build] raises exactly when the payload has
    more than 62 bytes. *)
Theorem frame_roundtrip_and_rejection (t : Z) (payload : bytes) :
  0 <= t <= 255 ->
  ((List.length payload <= 62)%nat ->
   exists frame, build_message t payload = Ok frame /\
                 List.length frame = 65%nat /\
                 parse_message frame = Ok (t, payload)) /\
  ((exists e, build_message t payload = Raise e) <->
   (62 < List.length payload)%nat).
Proof.
  intros Ht. split.
  - intros Hlen. eexists. split; [apply build_message_fits; assumption|]. split.
    + cbn [List.length]. rewrite length_app, zeros_length. lia.
    + apply parse_built_message; assumption.
  - split.
    + intros [e He].
      destruct (Nat.le_gt_cases (List.length payload) 62) as [Hle|Hgt]; [|exact Hgt].
      rewrite build_message_fits in He by assumption. discriminate.
    + apply build_message_too_long.
Qed.

Lemma frame_roundtrip_and_rejection_witness :
  (exists frame, build_message 0x60 (b_ "hi") = Ok frame /\
                 List.length frame = 65%nat /\
                 parse_message frame = Ok (0x60, b_ "hi")) /\
  ((exists e, build_message 0x60 (b_ "hi") = Raise e) <->
   (62 < List.length (b_ "hi"))%nat).
Proof.
  destruct (frame_roundtrip_and_rejection 0x60 (b_ "hi") ltac:(lia)) as [H1 H2].
  split; [apply H1; simpl; lia | exact H2].
Defined.

(** ** Reading a response *)

Section Reading.
Context {P : Primitives}.

(** The handle plays no part in turning a report into a message. *)
Lemma received_message_set_handle (self : Session) (h : HidWrapper) (report : bytes) :
  received_message (set_handle self h) report = received_message self report.
Proof. reflexivity. Qed.

Lemma read_response_empty (encrypted : bool) (w : World) :
  pending (_handle (session w)) = [] ->
  read_response encrypted w = (Raise ReadBlocked, w).
Proof.
  intros Hp. unfold read_response. rewrite Hp. cbn [List.length read_response_depth].
  unfold read_response_body, bind, handle_read, HidWrapper_read.
  rewrite Hp. reflexivity.
Qed.

(** One turn of [read_response] on a queue that is not empty. *)
Lemma read_response_cons (encrypted : bool) (w : World) (report : bytes)
      (rest : list bytes) :
  pending (_handle (session w)) = report :: rest ->
  read_response encrypted w =
  match received_message (session w) report with
  | Raise e => (Raise e, set_pending w rest)
  | Ok m =>
      if _is_keepalive_response m then read_response encrypted (set_pending w rest)
      else if _is_unknown_message_error m
      then (Raise (CommandError (Literal "Invalid command")), set_pending w rest)
      else if _is_encryption_missing_error m
      then (Raise (CommandError (Literal "Device encryption not initialized.")),
            set_pending w rest)
      else if _is_encryption_setup_error m
      then (Raise (CommandError (Literal "Device encryption initialization failed.")),
            set_pending w rest)
      else (Ok m, set_pending w rest)
  end.
Proof.
  intros Hp. unfold read_response at 1. rewrite Hp.
  cbn [List.length read_response_depth].
  unfold read_response_body, bind, handle_read, HidWrapper_read, get_self, lift.
  rewrite Hp. cbn [session].
  rewrite received_message_set_handle.
  destruct (received_message (session w) report) as [m|e]; [|reflexivity].
  destruct (_is_keepalive_response m); [reflexivity|].
  destruct (_is_unknown_message_error m); [reflexivity|].
  destruct (_is_encryption_missing_error m); [reflexivity|].
  destruct (_is_encryption_setup_error m); reflexivity.
Qed.

(** [read_response] does not depend on the number of unfoldings it is
    given: any number above the number of pending reports reaches the same
    outcome. *)
Lemma read_response_depth_enough (encrypted : bool) (reports : list bytes) :
  forall (w : World) (depth : nat),
    pending (_handle (session w)) = reports ->
    (List.length reports < depth)%nat ->
    read_response_depth depth encrypted w = read_response encrypted w.
Proof.
  induction reports as [|report rest IH]; intros w depth Hp Hd.
  - destruct depth as [|depth]; [cbn in Hd; lia|].
    rewrite (read_response_empty encrypted w Hp).
    cbn [read_response_depth].
    unfold read_response_body, bind, handle_read, HidWrapper_read.
    rewrite Hp. reflexivity.
  - destruct depth as [|depth]; [cbn in Hd; lia|].
    rewrite (read_response_cons encrypted w report rest Hp).
    cbn [read_response_depth].
    unfold read_response_body, bind, handle_read, HidWrapper_read, get_self, lift.
    rewrite Hp. cbn [session].
    rewrite received_message_set_handle.
    destruct (received_message (session w) report) as [m|e]; [|reflexivity].
    destruct (_is_keepalive_response m).
    + apply (IH (set_pending w rest) depth eq_refl). cbn [List.length] in Hd. lia.
    + destruct (_is_unknown_message_error m); [reflexivity|].
      destruct (_is_encryption_missing_error m); [reflexivity|].
      destruct (_is_encryption_setup_error m); reflexivity.
Qed.

Lemma set_pending_same (w : World) (reports : list bytes) :
  pending (_handle (session w)) = reports -> set_pending w reports = w.
Proof. intros <-. reflexivity. Qed.

Lemma is_keepalive_iff (m : message) :
  _is_keepalive_response m = true <-> fst m = 0x22.
Proof.
  unfold _is_keepalive_response, _create_matcher, _KEEPALIVE_RESPONSE.
  rewrite andb_true_r. apply Z.eqb_eq.
Qed.

Lemma matcher_exact (t : Z) (content : bytes) (m : message) :
  _create_matcher t (Some content) m = true <-> m = (t, content).
Proof.
  unfold _create_matcher. destruct m as [t' c']. cbn [fst snd].
  rewrite andb_true_iff, Z.eqb_eq, bytes_eqb_eq. split.
  - intros [-> ->]. reflexivity.
  - intros [= -> ->]. split; reflexivity.
Qed.

(** A keep-alive report is never decrypted and always yields a message of
    type [0x22]. *)
Lemma received_keepalive (self : Session) (report : bytes) :
  keepalive_report report ->
  exists content, received_message self report = Ok (0x22, content).
Proof.
  destruct report as [|first [|second tail]]; cbn; try contradiction.
  intros ->. unfold received_message. cbn.
  rewrite andb_false_r. cbn. eauto.
Qed.

(** Keep-alives at the head of the queue are skipped. *)
Lemma read_response_skips_keepalives (encrypted : bool) (keepalives : list bytes) :
  forall (w : World) (tail : list bytes),
    pending (_handle (session w)) = keepalives ++ tail ->
    Forall keepalive_report keepalives ->
    read_response encrypted w = read_response encrypted (set_pending w tail).
Proof.
  induction keepalives as [|k ks IH]; intros w tail Hp Hk.
  - rewrite set_pending_same by exact Hp. reflexivity.
  - inversion Hk as [|? ? Hk1 Hk2]; subst.
    rewrite (read_response_cons encrypted w k (ks ++ tail) Hp).
    destruct (received_keepalive (session w) k Hk1) as [content ->].
    change (_is_keepalive_response (0x22, content)) with true. cbv iota.
    rewrite (IH (set_pending w (ks ++ tail)) tail eq_refl Hk2).
    reflexivity.
Qed.

(** The reply to a message that is neither a keep-alive nor an error. *)
Lemma read_response_returns (encrypted : bool) (w : World) (report : bytes)
      (rest : list bytes) (m : message) :
  pending (_handle (session w)) = report :: rest ->
  received_message (session w) report = Ok m ->
  fst m <> 0x22 -> ~ error_reply m ->
  read_response encrypted w = (Ok m, set_pending w rest).
Proof.
  intros Hp Hm Hka Herr.
  rewrite (read_response_cons encrypted w report rest Hp), Hm.
  destruct (_is_keepalive_response m) eqn:E1;
    [apply is_keepalive_iff in E1; contradiction|].
  destruct (_is_unknown_message_error m) eqn:E2;
    [apply matcher_exact in E2; exfalso; apply Herr; left; exact E2|].
  destruct (_is_encryption_missing_error m) eqn:E3;
    [apply matcher_exact in E3; exfalso; apply Herr; right; left; exact E3|].
  destruct (_is_encryption_setup_error m) eqn:E4;
    [apply matcher_exact in E4; exfalso; apply Herr; right; right; exact E4|].
  reflexivity.
Qed.

(** One turn of [read_response] where there is room for it. *)
Lemma read_response_depth_cons (depth : nat) (encrypted : bool) (w : World)
      (report : bytes) (rest : list bytes) :
  pending (_handle (session w)) = report :: rest ->
  read_response_depth (S depth) encrypted w =
  match received_message (session w) report with
  | Raise e => (Raise e, set_pending w rest)
  | Ok m =>
      if _is_keepalive_response m
      then read_response_depth depth encrypted (set_pending w rest)
      else if _is_unknown_message_error m
      then (Raise (CommandError (Literal "Invalid command")), set_pending w rest)
      else if _is_encryption_missing_error m
      then (Raise (CommandError (Literal "Device encryption not initialized.")),
            set_pending w rest)
      else if _is_encryption_setup_error m
      then (Raise (CommandError (Literal "Device encryption initialization failed.")),
            set_pending w rest)
      else (Ok m, set_pending w rest)
  end.
Proof.
  intros Hp. cbn [read_response_depth].
  unfold read_response_body, bind, handle_read, HidWrapper_read, get_self, lift.
  rewrite Hp. cbn [session].
  rewrite received_message_set_handle.
  destruct (received_message (session w) report) as [m|e]; [|reflexivity].
  destruct (_is_keepalive_response m); [reflexivity|].
  destruct (_is_unknown_message_error m); [reflexivity|].
  destruct (_is_encryption_missing_error m); [reflexivity|].
  destruct (_is_encryption_setup_error m); reflexivity.
Qed.

(** Every keep-alive at the head of the queue takes one nested call. *)
Lemma read_response_depth_skips_keepalives (encrypted : bool)
      (keepalives : list bytes) :
  forall (depth : nat) (w : World) (tail : list bytes),
    pending (_handle (session w)) = keepalives ++ tail ->
    Forall keepalive_report keepalives ->
    (List.length keepalives <= depth)%nat ->
    read_response_depth depth encrypted w
    = read_response_depth (depth - List.length keepalives) encrypted
                          (set_pending w tail).
Proof.
  induction keepalives as [|k ks IH]; intros depth w tail Hp Hk Hd.
  - rewrite set_pending_same by exact Hp. cbn [List.length].
    rewrite Nat.sub_0_r. reflexivity.
  - inversion Hk as [|? ? Hk1 Hk2]; subst.
    destruct depth as [|depth]; [cbn in Hd; lia|].
    rewrite (read_response_depth_cons depth encrypted w k (ks ++ tail) Hp).
    destruct (received_keepalive (session w) k Hk1) as [content ->].
    change (_is_keepalive_response (0x22, content)) with true. cbv iota.
    rewrite (IH depth (set_pending w (ks ++ tail)) tail eq_refl Hk2)
      by (cbn [List.length] in Hd; lia).
    reflexivity.
Qed.

(** As many keep-alives as there is room for nested calls, or more, end in
    [RecursionError]. *)
Lemma read_response_depth_exhausted (depth : nat) (encrypted : bool) (w : World)
      (keepalives : list bytes) (tail : list bytes) :
  pending (_handle (session w)) = keepalives ++ tail ->
  Forall keepalive_report keepalives ->
  (depth <= List.length keepalives)%nat ->
  fst (read_response_depth depth encrypted w) = Raise RecursionError.
Proof.
  intros Hp Hk Hd.
  rewrite <- (firstn_skipn depth keepalives), <- app_assoc in Hp.
  rewrite (read_response_depth_skips_keepalives encrypted (firstn depth keepalives)
             depth w (skipn depth keepalives ++ tail) Hp).
  - rewrite firstn_length_le by exact Hd. rewrite Nat.sub_diag. reflexivity.
  - rewrite <- (firstn_skipn depth keepalives) in Hk.
    apply Forall_app in Hk. apply Hk.
  - rewrite firstn_length_le by exact Hd. lia.
Qed.

(** C5, as the code has it. [read_response] calls itself once for every
    keep-alive, so it skips as many keep-alives as the interpreter has room
    for nested calls. When the queue holds keep-alive reports, fewer than
    [room], followed by a report X, [read_response] with room for [room]
    nested calls answers as it does on X alone with the room that is left;
    and when X carries a message that is not a keep-alive, it returns that
    message, unless the message is one of the three error replies, for
    which it raises a command error. Either way what followed X is left in
    the queue. *)
Theorem keepalive_transparency (room : nat) (encrypted : bool) (w : World)
        (keepalives : list bytes) (x : bytes) (rest : list bytes) :
  pending (_handle (session w)) = keepalives ++ x :: rest ->
  Forall keepalive_report keepalives ->
  (List.length keepalives < room)%nat ->
  read_response_depth room encrypted w
  = read_response_depth (room - List.length keepalives) encrypted
                        (set_pending w (x :: rest)) /\
  forall m, received_message (session w) x = Ok m ->
            fst m <> 0x22 ->
            (~ error_reply m ->
             read_response_depth room encrypted w = (Ok m, set_pending w rest)) /\
            (error_reply m ->
             exists text,
               read_response_depth room encrypted w
               = (Raise (CommandError (Literal text)), set_pending w rest)).
Proof.
  intros Hp Hk Hroom.
  pose proof (read_response_depth_skips_keepalives encrypted keepalives room w
                (x :: rest) Hp Hk ltac:(lia)) as Hskip.
  split; [exact Hskip|].
  intros m Hm Hka. rewrite Hskip.
  destruct (room - List.length keepalives)%nat as [|left] eqn:Hleft; [lia|].
  rewrite (read_response_depth_cons left encrypted (set_pending w (x :: rest))
             x rest eq_refl).
  change (session (set_pending w (x :: rest)))
    with (set_handle (session w) (mkHid (x :: rest) (written (_handle (session w))))).
  rewrite received_message_set_handle, Hm.
  change (set_pending (set_pending w (x :: rest)) rest) with (set_pending w rest).
  destruct (_is_keepalive_response m) eqn:E1;
    [apply is_keepalive_iff in E1; contradiction|].
  split.
  - intros Herr.
    destruct (_is_unknown_message_error m) eqn:E2;
      [apply matcher_exact in E2; exfalso; apply Herr; left; exact E2|].
    destruct (_is_encryption_missing_error m) eqn:E3;
      [apply matcher_exact in E3; exfalso; apply Herr; right; left; exact E3|].
    destruct (_is_encryption_setup_error m) eqn:E4;
      [apply matcher_exact in E4; exfalso; apply Herr; right; right; exact E4|].
    reflexivity.
  - intros [-> | [-> | ->]]; eexists; reflexivity.
Qed.

(** C6. After any keep-alives have been skipped, the message [m] of the
    next report, when it is not itself a keep-alive, decides the answer:
    type [0x30] with the one byte [0x85], type [0x33] with [0x15] and type
    [0x33] with [0x14] raise the command error of an unknown message, of
    encryption not initialized and of a failed encryption setup; every
    other message is returned as it is. *)
Theorem read_response_classification (encrypted : bool) (w : World)
        (keepalives : list bytes) (report : bytes) (rest : list bytes)
        (m : message) :
  pending (_handle (session w)) = keepalives ++ report :: rest ->
  Forall keepalive_report keepalives ->
  received_message (session w) report = Ok m ->
  fst m <> 0x22 ->
  (m = (0x30, [x85]) ->
   read_response encrypted w =
   (Raise (CommandError (Literal "Invalid command")), set_pending w rest)) /\
  (m = (0x33, [x15]) ->
   read_response encrypted w =
   (Raise (CommandError (Literal "Device encryption not initialized.")),
    set_pending w rest)) /\
  (m = (0x33, [x14]) ->
   read_response encrypted w =
   (Raise (CommandError (Literal "Device encryption initialization failed.")),
    set_pending w rest)) /\
  (~ error_reply m -> read_response encrypted w = (Ok m, set_pending w rest)).
Proof.
  intros Hp Hk Hm Hka.
  rewrite (read_response_skips_keepalives encrypted keepalives w (report :: rest) Hp Hk).
  rewrite (read_response_cons encrypted (set_pending w (report :: rest)) report rest eq_refl).
  change (session (set_pending w (report :: rest)))
    with (set_handle (session w)
            (mkHid (report :: rest) (written (_handle (session w))))).
  rewrite received_message_set_handle, Hm.
  change (set_pending (set_pending w (report :: rest)) rest) with (set_pending w rest).
  repeat split.
  - intros ->. reflexivity.
  - intros ->. reflexivity.
  - intros ->. reflexivity.
  - intros Herr.
    destruct (_is_keepalive_response m) eqn:E1;
      [apply is_keepalive_iff in E1; contradiction|].
    destruct (_is_unknown_message_error m) eqn:E2;
      [apply matcher_exact in E2; exfalso; apply Herr; left; exact E2|].
    destruct (_is_encryption_missing_error m) eqn:E3;
      [apply matcher_exact in E3; exfalso; apply Herr; right; left; exact E3|].
    destruct (_is_encryption_setup_error m) eqn:E4;
      [apply matcher_exact in E4; exfalso; apply Herr; right; right; exact E4|].
    reflexivity.
Qed.

End Reading.

Section Frames.
Context {P : Primitives}.

(** A report that is not decrypted: the type is byte 0, the length byte 1,
    and the content what follows, cut at the length. *)
Lemma received_message_plain (self : Session) (first second : byte) (tail : bytes) :
  _encrypted_protocol self = false \/
  Z_in (byte_val first) _ALWAYS_UNENCRYPTED_MESSAGES = true ->
  received_message self (first :: second :: tail) =
  Ok (byte_val first, firstn (Z.to_nat (byte_val second)) tail).
Proof.
  intros Hplain. unfold received_message.
  cbn [List.length Nat.eqb negb assert rbind index nth_error].
  replace (_encrypted_protocol self &&
           negb (Z_in (byte_val first) _ALWAYS_UNENCRYPTED_MESSAGES))
    with false
    by (destruct Hplain as [-> | ->]; [reflexivity | symmetry; apply andb_false_r]).
  cbn [rbind index nth_error]. unfold slice.
  pose proof (byte_val_range second).
  replace (Z.to_nat (2 + byte_val second) - 2)%nat
    with (Z.to_nat (byte_val second)) by lia.
  reflexivity.
Qed.

(** C10. A report whose length byte, read after any decryption, announces
    more content than the report holds is not refused: the message carries
    all the bytes that follow the length byte, and [read_response] returns
    it when it is neither a keep-alive nor an error reply. *)
Theorem short_report_payload (encrypted : bool) (w : World) (report : bytes)
        (rest : list bytes) (first head second : byte) (tail : bytes) :
  pending (_handle (session w)) = report :: rest ->
  nth_error report 0 = Some first ->
  (if _encrypted_protocol (session w) &&
      negb (Z_in (byte_val first) _ALWAYS_UNENCRYPTED_MESSAGES)
   then decrypt_message (session w) report
   else Ok report) = Ok (head :: second :: tail) ->
  Z.of_nat (List.length tail) < byte_val second ->
  received_message (session w) report = Ok (byte_val first, tail) /\
  (byte_val first <> 0x22 -> ~ error_reply (byte_val first, tail) ->
   read_response encrypted w = (Ok (byte_val first, tail), set_pending w rest)).
Proof.
  intros Hp Hfirst Hplain Hshort.
  assert (Hm : received_message (session w) report = Ok (byte_val first, tail)).
  { unfold received_message.
    destruct report as [|r0 report']; [discriminate|].
    cbn in Hfirst. injection Hfirst as ->.
    cbn [List.length Nat.eqb negb assert rbind index nth_error].
    rewrite Hplain. cbn [rbind index nth_error]. unfold slice.
    cbn [skipn]. rewrite firstn_all2 by lia. reflexivity. }
  split; [exact Hm|].
  intros Hka Herr.
  apply (read_response_returns encrypted w report rest _ Hp Hm Hka Herr).
Qed.

(** C3, as the code has it. A frame is built with 65 bytes: the report id
    0, the message type, the payload length L, the payload, and zeros up to
    the end. On a plain profile, or for a type that is exempt from
    encryption, [send_command] writes the frame as built; on the encrypted
    profile it writes a frame of any other type as [encrypt_message] returns
    it. An inbound report reaches [read_response] without the report id,
    and its byte 0 is the message type. On a plain profile or for an exempt
    type, byte 1 of the report is the length L and bytes 2 to 2+L the
    payload, so that a frame stripped of its first byte is read back as the
    type and payload it was built from; on the encrypted profile, for any
    other type, the length and the payload are taken at the same offsets
    from what [decrypt_message] returns for the report. *)
Theorem frame_layouts (t : Z) (payload : bytes) :
  0 <= t <= 255 -> (List.length payload <= 62)%nat ->
  (exists frame,
      build_message t payload = Ok frame /\
      frame = x00 :: byte_of_Z t :: byte_of_Z (Z.of_nat (List.length payload)) ::
              payload ++ zeros (62 - List.length payload) /\
      (forall encrypted w,
          send_command t payload encrypted w =
          if _encrypted_protocol (session w) &&
             negb (Z_in t _ALWAYS_UNENCRYPTED_MESSAGES)
          then match encrypt_message (session w) frame with
               | Ok protected => handle_write protected w
               | Raise e => (Raise e, w)
               end
          else handle_write frame w) /\
      forall self,
        _encrypted_protocol self = false \/
        Z_in t _ALWAYS_UNENCRYPTED_MESSAGES = true ->
        received_message self (skipn 1 frame) = Ok (t, payload)) /\
  (forall self first second tail,
      _encrypted_protocol self = false \/
      Z_in (byte_val first) _ALWAYS_UNENCRYPTED_MESSAGES = true ->
      received_message self (first :: second :: tail) =
      Ok (byte_val first, slice 2 (2 + Z.to_nat (byte_val second))
                                (first :: second :: tail))) /\
  (forall self first tail,
      _encrypted_protocol self = true ->
      Z_in (byte_val first) _ALWAYS_UNENCRYPTED_MESSAGES = false ->
      received_message self (first :: tail) =
      match decrypt_message self (first :: tail) with
      | Raise e => Raise e
      | Ok ((_ :: second :: _) as usb_packet) =>
          Ok (byte_val first,
              slice 2 (2 + Z.to_nat (byte_val second)) usb_packet)
      | Ok _ => Raise IndexError
      end).
Proof.
  intros Ht Hlen. split; [|split].
  - eexists. split; [apply build_message_fits; assumption|].
    split; [reflexivity|]. split.
    + intros encrypted w. unfold send_command, bind, lift, get_self.
      rewrite build_message_fits by assumption.
      destruct (_encrypted_protocol (session w) &&
                negb (Z_in t _ALWAYS_UNENCRYPTED_MESSAGES)); [|reflexivity].
      destruct (encrypt_message (session w) _); reflexivity.
    + intros self Hplain. cbn [skipn].
      rewrite received_message_plain by (rewrite byte_val_of_Z by lia; exact Hplain).
      rewrite !byte_val_of_Z by lia.
      rewrite Nat2Z.id, firstn_app, Nat.sub_diag, firstn_all, firstn_O, app_nil_r.
      reflexivity.
  - intros self first second tail Hplain.
    rewrite received_message_plain by exact Hplain.
    unfold slice. cbn [skipn].
    replace (2 + Z.to_nat (byte_val second) - 2)%nat
      with (Z.to_nat (byte_val second)) by lia.
    reflexivity.
  - intros self first tail Hprof Hex.
    unfold received_message.
    cbn [List.length Nat.eqb negb assert rbind index nth_error].
    rewrite Hprof, Hex. cbn [andb negb].
    destruct (decrypt_message self (first :: tail)) as [[|b0 [|second rest]]|e];
      try reflexivity.
    cbn [rbind index nth_error].
    replace (Z.to_nat (2 + byte_val second))
      with (2 + Z.to_nat (byte_val second))%nat
      by (pose proof (byte_val_range second); lia).
    reflexivity.
Qed.

Lemma Z_in_exempt_range (t : Z) :
  In t _ALWAYS_UNENCRYPTED_MESSAGES ->
  0 <= t <= 255 /\ Z_in t _ALWAYS_UNENCRYPTED_MESSAGES = true.
Proof.
  unfold _ALWAYS_UNENCRYPTED_MESSAGES. cbn [In].
  intros H.
  repeat (destruct H as [<- | H]; [split; [cbv; split; discriminate | reflexivity]|]).
  contradiction.
Qed.

(** C4. For a type of the always-unencrypted set and a payload of at most
    62 bytes, [send_command] writes the frame [build] gives for that type
    and payload, byte for byte, whatever the session: also on an encrypted
    profile, and with or without session keys. *)
Theorem always_unencrypted_exemption (t : Z) (payload : bytes)
        (encrypted : bool) (w : World) :
  In t [0x01; 0x04; 0x05; 0x06; 0x0C; 0x0D; 0x14; 0x15; 0x33; 0x34; 0x35;
        0x71; 0x22] ->
  (List.length payload <= 62)%nat ->
  exists frame,
    build_message t payload = Ok frame /\
    send_command t payload encrypted w = handle_write frame w.
Proof.
  intros Hin Hlen.
  destruct (Z_in_exempt_range t Hin) as [Ht Hex].
  eexists. split; [apply build_message_fits; assumption|].
  unfold send_command, bind, lift, get_self.
  rewrite build_message_fits by assumption.
  rewrite Hex, andb_false_r. reflexivity.
Qed.

End Frames.

(** ** Record protection *)

Lemma le_bytes_length (n : nat) (z : Z) : List.length (le_bytes n z) = n.
Proof.
  revert z; induction n as [|n IH]; intros z; cbn [le_bytes List.length];
    [reflexivity | rewrite IH; reflexivity].
Qed.

(** Dropping the [k] low bytes leaves the bytes of the quotient by
    [256 ^ k]. *)
Lemma le_bytes_skipn (k n : nat) (z : Z) :
  skipn k (le_bytes (k + n) z) = le_bytes n (z / 256 ^ Z.of_nat k).
Proof.
  revert z; induction k as [|k IH]; intros z.
  - cbn [skipn Nat.add]. change (256 ^ Z.of_nat 0) with 1. rewrite Z.div_1_r.
    reflexivity.
  - cbn [Nat.add le_bytes skipn]. rewrite IH.
    rewrite Z.div_div by lia.
    replace (256 * 256 ^ Z.of_nat k) with (256 ^ Z.of_nat (S k))
      by (rewrite Nat2Z.inj_succ, Z.pow_succ_r by lia; reflexivity).
    reflexivity.
Qed.

(** [le_bytes n z] is the little-endian writing of [z mod 256 ^ n]. *)
Lemma le_bytes_value (n : nat) (z : Z) :
  int_from_bytes_little (le_bytes n z) = z mod 256 ^ Z.of_nat n.
Proof.
  revert z; induction n as [|n IH]; intros z.
  - cbn [le_bytes int_from_bytes_little]. change (256 ^ Z.of_nat 0) with 1.
    rewrite Z.mod_1_r. reflexivity.
  - cbn [le_bytes int_from_bytes_little]. rewrite IH.
    unfold byte_of_Z. rewrite Nat2Z.inj_succ, Z.pow_succ_r by lia.
    pose proof (Z.mod_pos_bound z 256 ltac:(lia)) as Hb.
    destruct (Byte.of_N (Z.to_N (z mod 256))) as [b|] eqn:E.
    + apply Byte.to_of_N in E. unfold byte_val. rewrite E, Z2N.id by lia.
      rewrite Z.rem_mul_r by lia. lia.
    + apply Byte.of_N_None_iff in E. lia.
Qed.

Section RecordProtection.
Context {P : Primitives}.

(** C1, as the code has it. With both session keys set and a tag of 64
    bits, [decrypt_message] first compares the four most significant bytes
    of the CMAC over [packet[0:60]], that is bytes 4 to 8 of the tag written
    little-endian, with [packet[60:64]]; when they differ it raises and
    gives no packet; when they agree it returns the packet with bytes 1 to
    56 replaced by their decryption under the initialisation vector
    [u32_be(packet[56:60]) << 8]. *)
Theorem decrypt_message_checks_then_decrypts
        (self : Session) (packet : bytes) (enc_key mac_key : Z) :
  crypt_enc self = Some enc_key ->
  crypt_mac self = Some mac_key ->
  0 <= SpeckCMAC_sign mac_key (slice 0 60 packet) < 2 ^ 64 ->
  le_bytes 4 (SpeckCMAC_sign mac_key (slice 0 60 packet) / 2 ^ 32)
  = slice 4 8 (le_bytes 8 (SpeckCMAC_sign mac_key (slice 0 60 packet))) /\
  (slice 60 64 packet
   = le_bytes 4 (SpeckCMAC_sign mac_key (slice 0 60 packet) / 2 ^ 32) ->
   decrypt_message self packet =
   Ok (slice 0 1 packet ++
       SpeckEncrypt_decrypt enc_key
         (int_from_bytes_big (slice 56 60 packet) * 2 ^ 8) (slice 1 56 packet) ++
       slice_from 56 packet)) /\
  (slice 60 64 packet
   <> le_bytes 4 (SpeckCMAC_sign mac_key (slice 0 60 packet) / 2 ^ 32) ->
   decrypt_message self packet = Raise AssertionError).
Proof.
  intros Henc Hmac Htag.
  change (slice 0 60 packet) with (slice_to 60 packet) in *.
  set (tag := SpeckCMAC_sign mac_key (slice_to 60 packet)) in *.
  assert (Hrun : decrypt_message self packet =
                 if bytes_eqb (le_bytes 4 (tag / 2 ^ 32)) (slice 60 64 packet)
                 then Ok (set_slice 1 56 packet
                            (SpeckEncrypt_decrypt enc_key
                               (Z.shiftl (int_from_bytes_big (slice 56 60 packet)) 8)
                               (slice 1 56 packet)))
                 else Raise AssertionError).
  { unfold decrypt_message. rewrite Hmac, Henc. cbn [attr rbind]. fold tag.
    unfold int_to_bytes_little.
    replace ((0 <=? tag) && (tag <? 256 ^ Z.of_nat 8)) with true
      by (symmetry; apply andb_true_iff; split;
          [apply Z.leb_le | apply Z.ltb_lt; change (256 ^ Z.of_nat 8) with (2 ^ 64)];
          lia).
    cbn [rbind]. unfold slice_from at 1.
    change (le_bytes 8 tag) with (le_bytes (4 + 4) tag).
    rewrite (le_bytes_skipn 4 4 tag).
    change (256 ^ Z.of_nat 4) with (2 ^ 32).
    destruct (bytes_eqb (le_bytes 4 (tag / 2 ^ 32)) (slice 60 64 packet));
      reflexivity. }
  rewrite Hrun, Z.shiftl_mul_pow2 by lia. split; [|split].
  - unfold slice. change (le_bytes 8 tag) with (le_bytes (4 + 4) tag).
    rewrite (le_bytes_skipn 4 4 tag). change (256 ^ Z.of_nat 4) with (2 ^ 32).
    rewrite firstn_all2 by (rewrite le_bytes_length; lia). reflexivity.
  - intros ->. rewrite bytes_eqb_refl. reflexivity.
  - intros Hne.
    destruct (bytes_eqb (le_bytes 4 (tag / 2 ^ 32)) (slice 60 64 packet)) eqn:E;
      [apply bytes_eqb_eq in E; congruence | reflexivity].
Qed.

End RecordProtection.

(** ** The checksum *)

Lemma fold_add_shift (l : list Z) (a : Z) :
  fold_left Z.add l a = a + fold_left Z.add l 0.
Proof.
  revert a; induction l as [|x l IH]; intros a; cbn [fold_left]; [lia|].
  rewrite (IH (a + x)), (IH (0 + x)). lia.
Qed.

Lemma sum_cons (x : Z) (l : list Z) : sum (x :: l) = x + sum l.
Proof. unfold sum. cbn [fold_left]. rewrite fold_add_shift. lia. Qed.

Lemma sum_app (l1 l2 : list Z) : sum (l1 ++ l2) = sum l1 + sum l2.
Proof.
  induction l1 as [|x l1 IH]; [reflexivity|].
  cbn [app]. rewrite !sum_cons, IH. lia.
Qed.

Lemma sum_bytes_nonneg (s : bytes) : 0 <= sum (map byte_val s).
Proof.
  induction s as [|b s IH]; [unfold sum; cbn; lia|].
  cbn [map]. rewrite sum_cons. pose proof (byte_val_range b). lia.
Qed.

Lemma sum_repeat (b : byte) (n : nat) :
  sum (map byte_val (repeat b n)) = Z.of_nat n * byte_val b.
Proof.
  induction n as [|n IH]; [reflexivity|].
  cbn [repeat map]. rewrite sum_cons, IH. lia.
Qed.

Lemma hex_digit_value_hex_digit (d : Z) :
  0 <= d < 16 -> hex_digit_value (hex_digit d) = Some d.
Proof.
  intros Hd. unfold hex_digit_value, hex_digit.
  destruct (Z.ltb_spec d 10).
  - rewrite byte_val_of_Z by lia.
    replace ((48 <=? 48 + d) && (48 + d <=? 57)) with true
      by (symmetry; apply andb_true_iff; lia).
    f_equal; lia.
  - rewrite byte_val_of_Z by lia.
    replace ((48 <=? 55 + d) && (55 + d <=? 57)) with false
      by (symmetry; apply andb_false_iff; right; apply Z.leb_gt; lia).
    replace ((65 <=? 55 + d) && (55 + d <=? 70)) with true
      by (symmetry; apply andb_true_iff; lia).
    f_equal; lia.
Qed.

(** A hexadecimal digit is no blank, sign, underscore or letter x. *)
Lemma hex_digit_value_plain (d : byte) (v : Z) :
  hex_digit_value d = Some v ->
  is_space d = false /\ Byte.eqb d "+" = false /\ Byte.eqb d "-" = false /\
  Byte.eqb d "_" = false /\ Byte.eqb d "x" = false /\ Byte.eqb d "X" = false.
Proof.
  destruct d; intros H; vm_compute in H; try discriminate H;
    repeat split; reflexivity.
Qed.

Lemma int_base16_hex_digits (n : nat) :
  forall (v acc : Z) (rest : bytes),
    0 <= v ->
    int_base16_digits acc false (hex_digits n v rest) =
    int_base16_digits (acc * 16 ^ Z.of_nat n + v mod 16 ^ Z.of_nat n) false rest.
Proof.
  induction n as [|n IH]; intros v acc rest Hv.
  - cbn [hex_digits]. change (16 ^ Z.of_nat 0) with 1. rewrite Z.mod_1_r.
    f_equal; lia.
  - cbn [hex_digits]. rewrite IH by (apply Z.div_pos; lia).
    cbn [int_base16_digits].
    rewrite hex_digit_value_hex_digit by (apply Z.mod_pos_bound; lia).
    f_equal. rewrite Nat2Z.inj_succ, Z.pow_succ_r by lia.
    rewrite (Z.rem_mul_r v 16 (16 ^ Z.of_nat n)) by lia. lia.
Qed.

Lemma hex_digits_length (n : nat) :
  forall (v : Z) (rest : bytes),
    List.length (hex_digits n v rest) = (n + List.length rest)%nat.
Proof.
  induction n as [|n IH]; intros v rest; cbn [hex_digits]; [reflexivity|].
  rewrite IH. cbn [List.length]. lia.
Qed.

(** [int] on two digits or more that make up the whole string: there is
    nothing to skip, and the value is that of the run. *)
Lemma int_base16_plain (d1 d2 : byte) (ds : bytes) (v1 v2 v : Z) :
  hex_digit_value d1 = Some v1 ->
  hex_digit_value d2 = Some v2 ->
  int_base16_digits 0 false (d1 :: d2 :: ds) = Ok (v, []) ->
  int_base16 (d1 :: d2 :: ds) = Ok v.
Proof.
  intros H1 H2 Hrun.
  destruct (hex_digit_value_plain d1 v1 H1) as (S1 & P1 & M1 & U1 & _).
  destruct (hex_digit_value_plain d2 v2 H2) as (_ & _ & _ & _ & X2 & X2').
  unfold int_base16. cbn [skip_spaces]. rewrite S1, P1, M1. cbn [orb].
  rewrite X2, X2'. cbn [orb]. rewrite andb_false_r, U1, Hrun.
  reflexivity.
Qed.

(** Reading back the eight digits of a 32-bit value. *)
Lemma int_base16_hex8 (v : Z) : 0 <= v < 2 ^ 32 -> int_base16 (hex8 v) = Ok v.
Proof.
  intros Hv.
  assert (Hrun : int_base16_digits 0 false (hex8 v) = Ok (v, [])).
  { unfold hex8. rewrite int_base16_hex_digits by lia.
    cbn [int_base16_digits]. change (16 ^ Z.of_nat 8) with (2 ^ 32).
    rewrite Z.mod_small by lia. reflexivity. }
  unfold hex8 in *. cbn [hex_digits] in *.
  eapply int_base16_plain; [| | exact Hrun];
    apply hex_digit_value_hex_digit; apply Z.mod_pos_bound; lia.
Qed.

Lemma verify_checksum_bytes (s checksum : bytes) (expected : Z) :
  int_base16 checksum = Ok expected ->
  _verify_checksum (Bytes s) checksum =
  if expected =? sum (map byte_val s) then Ok tt
  else Raise (ChecksumError expected (sum (map byte_val s))).
Proof.
  intros H. unfold _verify_checksum. rewrite H. cbn [rbind].
  destruct (expected =? sum (map byte_val s)); reflexivity.
Qed.

(** C2, as the code has it. The byte sum is compared as it is, without
    reduction: a byte string whose sum is below [2 ^ 32] verifies against the
    eight digits of its sum, and no string obtained from a byte string by
    changing one byte verifies against the digits of the sum of the
    original, reduced modulo [2 ^ 32]. *)
Theorem checksum_law (s : bytes) :
  (sum (map byte_val s) < 2 ^ 32 ->
   _verify_checksum (Bytes s) (hex8 (sum (map byte_val s) mod 2 ^ 32)) = Ok tt) /\
  (forall s', single_byte_mutation s s' ->
     exists expected calculated,
       _verify_checksum (Bytes s') (hex8 (sum (map byte_val s) mod 2 ^ 32))
       = Raise (ChecksumError expected calculated)).
Proof.
  pose proof (sum_bytes_nonneg s) as Hpos.
  pose proof (Z.mod_pos_bound (sum (map byte_val s)) (2 ^ 32) ltac:(lia)) as Hmod.
  split.
  - intros Hsmall.
    rewrite (verify_checksum_bytes _ _ _ (int_base16_hex8 _ Hmod)).
    rewrite Z.mod_small by lia. rewrite Z.eqb_refl. reflexivity.
  - intros s' Hmut.
    rewrite (verify_checksum_bytes _ _ _ (int_base16_hex8 _ Hmod)).
    destruct (Z.eqb_spec (sum (map byte_val s) mod 2 ^ 32) (sum (map byte_val s')))
      as [Heq|Hne]; [exfalso | eauto].
    destruct Hmut as [before after b b' Hbb].
    rewrite !map_app in *. cbn [map] in *.
    rewrite !sum_app, !sum_cons in *.
    pose proof (byte_val_range b). pose proof (byte_val_range b').
    assert (byte_val b <> byte_val b') by (intros Hv; apply Hbb, byte_val_inj, Hv).
    set (total := sum (map byte_val before) + (byte_val b + sum (map byte_val after))) in *.
    pose proof (Z.div_mod total (2 ^ 32) ltac:(lia)) as Hdm.
    pose proof (Z.div_pos total (2 ^ 32) Hpos ltac:(lia)) as Hq.
    assert (total / 2 ^ 32 = 0 \/ 1 <= total / 2 ^ 32) as [Hz|Hz] by lia; nia.
Qed.

(** ** The multirecord pattern *)

Lemma star_none {A} (cs : Re.charset) (k : nat -> bytes -> option A) (s : bytes) :
  forall pos, (forall p i, k p (skipn i s) = None) -> Re.star cs pos s k = None.
Proof.
  induction s as [|c s IH]; intros pos Hk.
  - cbn. apply (Hk pos 0%nat).
  - cbn [Re.star].
    assert (Hs : Re.star cs (S pos) s k = None).
    { apply IH. intros p i. apply (Hk p (S i)). }
    rewrite Hs. destruct (Re.charset_mem cs c); apply (Hk pos 0%nat).
Qed.

Lemma star_dot_backs_off {A} (k : nat -> bytes -> option A) (x tail : bytes) (r : A) :
  forall pos,
  (forall p i, (0 < i)%nat -> k p (skipn i tail) = None) ->
  k (pos + List.length x)%nat tail = Some r ->
  Re.star Re.Dot pos (x ++ tail) k = Some r.
Proof.
  induction x as [|c x IH]; intros pos Hfail Hok.
  - cbn [app List.length] in *. rewrite Nat.add_0_r in Hok.
    destruct tail as [|c tail]; [exact Hok|].
    cbn [Re.star Re.charset_mem].
    rewrite star_none; [exact Hok|].
    intros p i. apply (Hfail p (S i)). lia.
  - cbn [app Re.star Re.charset_mem].
    rewrite (IH (S pos) Hfail); [reflexivity|].
    cbn [List.length] in Hok. rewrite <- Hok. f_equal. lia.
Qed.

Lemma times_run {A} (cs : Re.charset) (k : nat -> bytes -> option A) (h : bytes) :
  forall pos rest,
    forallb (Re.charset_mem cs) h = true ->
    Re.times (List.length h) cs pos (h ++ rest) k = k (pos + List.length h)%nat rest.
Proof.
  induction h as [|c h IH]; intros pos rest Hall.
  - cbn. rewrite Nat.add_0_r. reflexivity.
  - cbn [forallb] in Hall. apply andb_true_iff in Hall as [Hc Hh].
    cbn [List.length app Re.times]. rewrite Hc, IH by exact Hh.
    f_equal. lia.
Qed.

Lemma star_run {A} (cs : Re.charset) (k : nat -> bytes -> option A) (d : bytes)
      (c : byte) (rest : bytes) (r : A) :
  forall pos,
    forallb (Re.charset_mem cs) d = true ->
    Re.charset_mem cs c = false ->
    k (pos + List.length d)%nat (c :: rest) = Some r ->
    Re.star cs pos (d ++ c :: rest) k = Some r.
Proof.
  induction d as [|b d IH]; intros pos Hall Hc Hk.
  - cbn [app Re.star]. rewrite Hc. cbn in Hk. rewrite Nat.add_0_r in Hk. exact Hk.
  - cbn [forallb] in Hall. apply andb_true_iff in Hall as [Hb Hd].
    cbn [app Re.star]. rewrite Hb, (IH (S pos) Hd Hc); [reflexivity|].
    rewrite <- Hk. cbn [List.length]. f_equal. lia.
Qed.

Lemma lit_crlf_suffix (U : bytes) :
  Forall (fun b => b <> CR) U ->
  forall j, Re.lit CRLF (skipn j (U ++ CRLF)) = None \/
            Re.lit CRLF (skipn j (U ++ CRLF)) = Some [].
Proof.
  induction 1 as [|b U Hb HU IH]; intros j.
  - destruct j as [|[|[|j]]]; cbn; auto.
  - destruct j as [|j].
    + left. unfold CRLF. cbn [app skipn Re.lit].
      destruct (Byte.eqb CR b) eqn:E; [|reflexivity].
      apply Byte.byte_dec_bl in E. congruence.
    + cbn [app skipn]. apply IH.
Qed.

Lemma multirecords_format_eq :
  _MULTIRECORDS_FORMAT =
  Re.Cat Re.Bol (Re.Cat (Re.Group "message" (Re.Cat (Re.Plus Re.Dot) (Re.Lit CRLF)))
                        multirecord_trailer).
Proof. reflexivity. Qed.


Lemma lit_app (l rest : bytes) : Re.lit l (l ++ rest) = Some rest.
Proof.
  induction l as [|b l IH]; [reflexivity|].
  cbn [app Re.lit].
  assert (Hb : Byte.eqb b b = true) by (apply Byte.byte_dec_lb; reflexivity).
  rewrite Hb. exact IH.
Qed.

Lemma run_lit_app {A} (l rest : bytes) (pos : nat) (g : Re.groups)
      (k : nat -> bytes -> Re.groups -> option A) :
  Re.run (Re.Lit l) pos (l ++ rest) g k = k (pos + List.length l)%nat rest g.
Proof. cbn [Re.run]. rewrite lit_app. reflexivity. Qed.

Lemma run_cat {A} (r1 r2 : Re.t) (pos : nat) (s : bytes) (g : Re.groups)
      (k : nat -> bytes -> Re.groups -> option A) :
  Re.run (Re.Cat r1 r2) pos s g k =
  Re.run r1 pos s g (fun p rest g' => Re.run r2 p rest g' k).
Proof. reflexivity. Qed.

Lemma run_group {A} (name : string) (r : Re.t) (pos : nat) (s : bytes)
      (g : Re.groups) (k : nat -> bytes -> Re.groups -> option A) :
  Re.run (Re.Group name r) pos s g k =
  Re.run r pos s g (fun p rest g' => k p rest ((name, firstn (p - pos) s) :: g')).
Proof. reflexivity. Qed.

Lemma run_plus_cons {A} (cs : Re.charset) (pos : nat) (c : byte) (s : bytes)
      (g : Re.groups) (k : nat -> bytes -> Re.groups -> option A) :
  Re.charset_mem cs c = true ->
  Re.run (Re.Plus cs) pos (c :: s) g k =
  Re.star cs (S pos) s (fun p rest => k p rest g).
Proof. intros H. cbn [Re.run Re.times]. rewrite H. reflexivity. Qed.

Lemma run_repeat {A} (cs : Re.charset) (pos : nat) (h rest : bytes)
      (g : Re.groups) (k : nat -> bytes -> Re.groups -> option A) :
  forallb (Re.charset_mem cs) h = true ->
  Re.run (Re.Repeat (List.length h) cs) pos (h ++ rest) g k =
  k (pos + List.length h)%nat rest g.
Proof. intros H. cbn [Re.run]. rewrite times_run by exact H. reflexivity. Qed.

Lemma firstn_span {X} (a b : list X) (p q : nat) :
  (q - p = List.length a)%nat -> firstn (q - p) (a ++ b) = a.
Proof.
  intros ->. rewrite firstn_app, Nat.sub_diag, firstn_all, firstn_O, app_nil_r.
  reflexivity.
Qed.

Lemma run_trailer {A} (count checksum : bytes) (pos : nat) (g : Re.groups)
      (k : nat -> bytes -> Re.groups -> option A) (r : A) :
  count <> [] ->
  forallb (Re.charset_mem Re.digit) count = true ->
  List.length checksum = 8%nat ->
  forallb (Re.charset_mem Re.upper_hex) checksum = true ->
  k (pos + List.length count + 11)%nat []
    (("checksum"%string, checksum) :: ("count"%string, count) :: g) = Some r ->
  Re.run multirecord_trailer pos (count ++ b_ "," ++ checksum ++ CRLF) g k = Some r.
Proof.
  intros Hne Hdig Hlen Hhex Hk.
  unfold multirecord_trailer. cbn [cat_all].
  rewrite run_cat, run_group.
  destruct count as [|d count]; [congruence|].
  pose proof Hdig as Hdig'.
  cbn [forallb] in Hdig'. apply andb_true_iff in Hdig' as [Hd Hds].
  cbn [app]. rewrite run_plus_cons by exact Hd.
  apply star_run; [exact Hds | reflexivity |].
  change (byte_of_ascii "," :: checksum ++ CRLF) with (b_ "," ++ (checksum ++ CRLF)).
  rewrite run_cat, run_lit_app, run_cat, run_group.
  rewrite <- Hlen at 1. rewrite run_repeat by exact Hhex.
  rewrite run_cat.
  rewrite <- (app_nil_r CRLF) at 2. rewrite run_lit_app.
  cbn [Re.run].
  change (d :: count ++ b_ "," ++ checksum ++ CRLF)
    with ((d :: count) ++ b_ "," ++ checksum ++ CRLF).
  change (List.length (b_ ",")) with 1%nat. change (List.length CRLF) with 2%nat.
  rewrite !firstn_span by (cbn [List.length]; lia).
  rewrite <- Hk. f_equal. cbn [List.length]. rewrite Hlen. lia.
Qed.


Lemma run_bol {A} (s : bytes) (g : Re.groups)
      (k : nat -> bytes -> Re.groups -> option A) :
  Re.run Re.Bol 0 s g k = k 0%nat s g.
Proof. reflexivity. Qed.

(** After the message group, nothing matches at a proper suffix of the
    trailer: the only CR LF left is the last one, and no count follows it. *)
Lemma after_message_fails {A} (count checksum : bytes)
      (k : nat -> bytes -> Re.groups -> option A) :
  (forall p g, k p [] g = None) ->
  forallb (Re.charset_mem Re.digit) count = true ->
  forallb (Re.charset_mem Re.upper_hex) checksum = true ->
  forall p i g,
    (0 < i)%nat ->
    Re.run (Re.Lit CRLF) p (skipn i (CRLF ++ count ++ b_ "," ++ checksum ++ CRLF)) g k
    = None.
Proof.
  intros Hk Hdig Hhex p i g Hi.
  destruct i as [|[|j]]; [lia | reflexivity |].
  change (skipn (S (S j)) (CRLF ++ count ++ b_ "," ++ checksum ++ CRLF))
    with (skipn j (count ++ b_ "," ++ checksum ++ CRLF)).
  rewrite !app_assoc.
  assert (HU : Forall (fun b => b <> CR) ((count ++ b_ ",") ++ checksum)).
  { rewrite !Forall_app. repeat split.
    - apply Forall_forall. intros b Hb Heq. subst b.
      rewrite forallb_forall in Hdig. specialize (Hdig _ Hb). discriminate.
    - repeat constructor. discriminate.
    - apply Forall_forall. intros b Hb Heq. subst b.
      rewrite forallb_forall in Hhex. specialize (Hhex _ Hb). discriminate. }
  cbn [Re.run].
  destruct (lit_crlf_suffix _ HU j) as [-> | ->]; [reflexivity | apply Hk].
Qed.

Lemma search_multirecords (x count checksum : bytes) :
  x <> [] ->
  count <> [] ->
  forallb (Re.charset_mem Re.digit) count = true ->
  List.length checksum = 8%nat ->
  forallb (Re.charset_mem Re.upper_hex) checksum = true ->
  Re.search _MULTIRECORDS_FORMAT
            ((x ++ CRLF) ++ count ++ b_ "," ++ checksum ++ CRLF) =
  Some [("checksum"%string, checksum); ("count"%string, count);
        ("message"%string, x ++ CRLF)].
Proof.
  intros Hx Hne Hdig Hlen Hhex.
  unfold Re.search.
  assert (Hrun : Re.run _MULTIRECORDS_FORMAT 0
                   ((x ++ CRLF) ++ count ++ b_ "," ++ checksum ++ CRLF) []
                   (fun _ _ g => Some g) =
                 Some [("checksum"%string, checksum); ("count"%string, count);
                       ("message"%string, x ++ CRLF)]).
  { rewrite multirecords_format_eq, run_cat, run_bol, run_cat, run_group, run_cat.
    destruct x as [|c x]; [congruence|].
    set (subject := ((c :: x) ++ CRLF) ++ count ++ b_ "," ++ checksum ++ CRLF).
    assert (Hs : subject = c :: x ++ CRLF ++ count ++ b_ "," ++ checksum ++ CRLF).
    { unfold subject. cbn [app]. rewrite <- app_assoc. reflexivity. }
    rewrite Hs at 1. rewrite run_plus_cons by reflexivity.
    apply star_dot_backs_off.
    - intros p i Hi.
      apply after_message_fails; [reflexivity | exact Hdig | exact Hhex | exact Hi].
    - rewrite run_lit_app.
      apply run_trailer; [exact Hne | exact Hdig | exact Hlen | exact Hhex |].
      unfold subject. rewrite firstn_span; [reflexivity|].
      rewrite length_app. cbn [List.length]. lia. }
  destruct ((x ++ CRLF) ++ count ++ b_ "," ++ checksum ++ CRLF);
    cbn [Re.search_from]; rewrite Hrun; reflexivity.
Qed.

(** ** Text replies and multirecords *)

Section Loop.
Context {P : Primitives}.

(** A call of [read_response] that returns has taken at least one report
    off the queue. *)
Lemma read_response_consumes (encrypted : bool) (reports : list bytes) :
  forall (w : World) (m : message),
    pending (_handle (session w)) = reports ->
    fst (read_response encrypted w) = Ok m ->
    (List.length (pending (_handle (session (snd (read_response encrypted w)))))
     < List.length reports)%nat.
Proof.
  induction reports as [|report rest IH]; intros w m Hp Hr.
  - rewrite (read_response_empty encrypted w Hp) in Hr. discriminate.
  - rewrite (read_response_cons encrypted w report rest Hp) in Hr |- *.
    destruct (received_message (session w) report) as [m'|e]; [|discriminate].
    destruct (_is_keepalive_response m').
    + specialize (IH (set_pending w rest) m eq_refl Hr). cbn [List.length]. lia.
    + destruct (_is_unknown_message_error m'); [discriminate|].
      destruct (_is_encryption_missing_error m'); [discriminate|].
      destruct (_is_encryption_setup_error m'); [discriminate|].
      cbn. lia.
Qed.

(** The loop of [_send_text_command_raw] never uses up the turns it is
    given: any number of turns above the number of pending reports gives
    the same outcome. *)
Lemma text_reply_loop_fuel (n : nat) :
  forall (m : nat) (full_content : bytes) (w : World),
    (List.length (pending (_handle (session w))) < n)%nat ->
    (List.length (pending (_handle (session w))) < m)%nat ->
    text_reply_loop n full_content w = text_reply_loop m full_content w.
Proof.
  induction n as [|n IH]; intros m full_content w Hn Hm; [lia|].
  destruct m as [|m]; [lia|].
  cbn [text_reply_loop]. unfold bind at 1 3.
  pose proof (read_response_consumes false (pending (_handle (session w))) w) as Hcons.
  destruct (read_response false w) as [[response|e] w1] eqn:Hread; [|reflexivity].
  specialize (Hcons response eq_refl eq_refl). cbn [snd] in Hcons.
  unfold bind, get_self.
  destruct (negb (fst response =? _text_reply_message_type (session w1)));
    [reflexivity|].
  destruct (Re.search _TEXT_COMPLETION_RE (full_content ++ snd response));
    [reflexivity|].
  apply IH; lia.
Qed.
End Loop.

Section Multirecord.
Context {P : Primitives}.

Lemma not_log_empty (x count rest : bytes) :
  bytes_eqb ((x ++ CRLF) ++ count ++ b_ "," ++ rest) (b_ "Log Empty" ++ CRLF) = false.
Proof.
  apply bytes_eqb_neq. intros Heq.
  assert (Hin : In ","%byte ((x ++ CRLF) ++ count ++ b_ "," ++ rest)).
  { rewrite !in_app_iff. right. right. left. left. reflexivity. }
  rewrite Heq in Hin. cbn in Hin.
  repeat (destruct Hin as [Hin | Hin]; [discriminate|]). exact Hin.
Qed.

(** C8. When the text command returns a message made of a body that ends
    in CR LF, a count in decimal digits, a comma, eight upper-case
    hexadecimal digits and CR LF, and the digits are the checksum of the
    body, [query_multirecord] returns the CSV reader over the lines of the
    decoded body. The count takes no part in the result: whatever number
    it declares, the call succeeds with the same records. *)
Theorem multirecord_count_not_compared
        (command : bytes) (w w' : World) (x count checksum : bytes) (text : str) :
  _send_text_command_raw command w =
    (Ok ((x ++ CRLF) ++ count ++ b_ "," ++ checksum ++ CRLF), w') ->
  x <> [] ->
  count <> [] ->
  forallb (Re.charset_mem Re.digit) count = true ->
  List.length checksum = 8%nat ->
  forallb (Re.charset_mem Re.upper_hex) checksum = true ->
  _verify_checksum (Bytes (x ++ CRLF)) checksum = Ok tt ->
  decode_replace (_encoding (session w')) (x ++ CRLF) = Some text ->
  query_multirecord command w = (Ok (CsvReader (split_crlf text [])), w').
Proof.
  intros Hraw Hx Hne Hdig Hlen Hhex Hsum Hdec.
  unfold query_multirecord, bind. rewrite Hraw.
  rewrite not_log_empty.
  rewrite search_multirecords by assumption.
  change (Re.group _ "message") with (@Ok bytes (x ++ CRLF)).
  change (Re.group _ "checksum") with (@Ok bytes checksum).
  unfold lift. rewrite Hsum.
  unfold decode, bind, get_self. rewrite Hdec. reflexivity.
Qed.

End Multirecord.

(** ** The session keys *)

Section Keys.
Context {P : Primitives}.

Lemma keeps_ret {A} (a : A) : keeps_keys (ret a).
Proof. intros w. reflexivity. Qed.

Lemma keeps_raise {A} (e : exn) : keeps_keys (@raise A e).
Proof. intros w. reflexivity. Qed.

Lemma keeps_lift {A} (r : result A) : keeps_keys (lift r).
Proof. intros w. reflexivity. Qed.

Lemma keeps_get_self : keeps_keys get_self.
Proof. intros w. reflexivity. Qed.

Lemma keeps_handle_read : keeps_keys handle_read.
Proof.
  intros w. unfold handle_read, HidWrapper_read.
  destruct (pending (_handle (session w))); reflexivity.
Qed.

Lemma keeps_handle_write (data : bytes) : keeps_keys (handle_write data).
Proof. intros w. reflexivity. Qed.

Lemma keeps_randbytes (n : nat) : keeps_keys (randbytes n).
Proof. intros w. reflexivity. Qed.

Lemma keeps_bind {A B} (c : M A) (k : A -> M B) :
  keeps_keys c -> (forall a, keeps_keys (k a)) -> keeps_keys (bind c k).
Proof.
  intros Hc Hk w. unfold bind. specialize (Hc w).
  destruct (c w) as [[a|e] w1]; cbn [snd] in *; [|exact Hc].
  rewrite (Hk a w1). exact Hc.
Qed.

Lemma keeps_if {A} (b : bool) (c1 c2 : M A) :
  keeps_keys c1 -> keeps_keys c2 -> keeps_keys (if b then c1 else c2).
Proof. destruct b; auto. Qed.

Ltac keeps_primitive :=
  first [ apply keeps_ret | apply keeps_raise | apply keeps_lift
        | apply keeps_get_self | apply keeps_handle_read
        | apply keeps_handle_write | apply keeps_randbytes | assumption ].

(** Walks through the binds and branches of a method, closing each step
    with [known]. *)
Ltac keeps_by known :=
  repeat first
    [ solve [known]
    | apply keeps_bind; [|intros]
    | apply keeps_if
    | progress cbv zeta
    | match goal with
      | |- keeps_keys (match ?x with _ => _ end) => destruct x
      end ].

Lemma keeps_send_command (t : Z) (command : bytes) (encrypted : bool) :
  keeps_keys (send_command t command encrypted).
Proof. unfold send_command. keeps_by keeps_primitive. Qed.

Lemma keeps_read_response_depth (n : nat) (encrypted : bool) :
  keeps_keys (read_response_depth n encrypted).
Proof.
  induction n as [|n IH]; cbn [read_response_depth]; [apply keeps_raise|].
  unfold read_response_body. keeps_by keeps_primitive.
Qed.

Lemma keeps_read_response (encrypted : bool) : keeps_keys (read_response encrypted).
Proof. intros w. unfold read_response. apply keeps_read_response_depth. Qed.

Ltac keeps_io :=
  first [ keeps_primitive | apply keeps_send_command | apply keeps_read_response ].

Lemma keeps_text_reply_loop (fuel : nat) :
  forall full_content, keeps_keys (text_reply_loop fuel full_content).
Proof.
  induction fuel as [|fuel IH]; intros full_content; cbn [text_reply_loop];
    [apply keeps_raise|].
  keeps_by ltac:(first [keeps_io | apply IH]).
Qed.

Lemma keeps_send_text_command_raw (command : bytes) :
  keeps_keys (_send_text_command_raw command).
Proof.
  unfold _send_text_command_raw.
  keeps_by ltac:(first [keeps_io | apply keeps_text_reply_loop]).
Qed.

Lemma keeps_decode (data : bytes) : keeps_keys (decode data).
Proof. unfold decode. keeps_by keeps_primitive. Qed.

Lemma keeps_send_text_command (command : bytes) :
  keeps_keys (send_text_command command).
Proof.
  unfold send_text_command.
  keeps_by ltac:(first [apply keeps_send_text_command_raw | apply keeps_decode]).
Qed.

Lemma keeps_query_multirecord (command : bytes) :
  keeps_keys (query_multirecord command).
Proof.
  unfold query_multirecord.
  keeps_by ltac:(first [ keeps_primitive | apply keeps_send_text_command_raw
                       | apply keeps_decode ]).
Qed.

Lemma on_raise_bind {A B} (c : M A) (k : A -> M B) :
  keeps_keys c -> (forall a, keeps_keys_on_raise (k a)) ->
  keeps_keys_on_raise (bind c k).
Proof.
  intros Hc Hk w e. unfold bind. specialize (Hc w).
  destruct (c w) as [[a|e'] w1]; cbn [fst snd] in *; [|intros _; exact Hc].
  intros Hr. rewrite (Hk a w1 e Hr). exact Hc.
Qed.

Lemma on_raise_never {A} (c : M A) :
  (forall w, exists a, fst (c w) = Ok a) -> keeps_keys_on_raise c.
Proof. intros H w e Hr. destruct (H w) as [a Ha]. congruence. Qed.

Lemma handshake_keeps_keys_on_raise : keeps_keys_on_raise encryption_handshake.
Proof.
  unfold encryption_handshake. cbv zeta.
  repeat (apply on_raise_bind; [solve [keeps_io] | intros]).
  apply on_raise_never. intros w. exists tt. reflexivity.
Qed.


(** C9, as the code has it. The session keys are written by the last two
    statements of [encryption_handshake] and nowhere else: a call that
    does not run the handshake, and a call whose handshake raises, leave
    them as they were, whether the call returns or raises. *)
Theorem session_keys_change_only_by_handshake (c : call) (w : World) :
  runs_handshake c w = false \/
  (exists e, fst (encryption_handshake w) = Raise e) ->
  session_keys (session (after_call c w)) = session_keys (session w).
Proof.
  intros Hc. destruct c; cbn [after_call runs_handshake] in *.
  - unfold connect, bind at 1 2, get_self. cbn [session].
    destruct (_encrypted_protocol (session w)) eqn:Henc.
    + destruct Hc as [Hc | [e He]]; [discriminate|].
      pose proof (handshake_keeps_keys_on_raise w e He) as Hkeys.
      destruct (encryption_handshake w) as [[u|e'] w1]; cbn [fst snd] in *;
        [discriminate | exact Hkeys].
    + assert (Hrest : keeps_keys
                (bind (send_command _INIT_COMMAND [] false)
                   (fun _ => bind (read_response false)
                      (fun response =>
                         if negb (_is_init_reply response)
                         then raise (ConnectionError (fst response) (snd response))
                         else ret tt))))
      by (keeps_by keeps_io).
      apply (Hrest w).
  - destruct Hc as [Hc | [e He]]; [discriminate|].
    apply (handshake_keeps_keys_on_raise w e He).
  - apply keeps_send_command.
  - apply keeps_read_response.
  - apply keeps_send_text_command.
  - apply keeps_query_multirecord.
Qed.

End Keys.

(** ** Concrete runs *)

Section ConcreteRuns.

#[local] Existing Instance Sample.primitives.

Lemma frame_layouts_witness :
  received_message (Sample.plain_session []) (skipn 1 Sample.hi_frame)
  = Ok (0x60, b_ "hi").
Proof.
  destruct (frame_layouts 0x60 (b_ "hi")
              ltac:(lia) ltac:(simpl; lia)) as [[frame [_ [Hframe [_ Hread]]]] _].
  subst frame. apply (Hread (Sample.plain_session [])). left. reflexivity.
Defined.

(** C3 as stated fails: a frame in the 65-byte layout, report id first, is
    not read back as the type and payload it was built from; the report id
    is taken for the type and the type for the length. And on the encrypted
    profile a frame of a type that is not exempt is neither written in that
    layout nor read at those offsets: with the keys 5 and 7, the frame
    written for type [0x60] is not the frame built, and the frame built,
    without its report id, fails the check of [decrypt_message]. *)
Lemma read_response_takes_type_from_byte_zero :
  build_message 0x60 (b_ "hi") = Ok Sample.hi_frame /\
  fst (read_response false (Sample.world (Sample.plain_session [Sample.hi_frame])))
  = Ok (0, skipn 2 Sample.hi_frame) /\
  fst (read_response false (Sample.world (Sample.plain_session [Sample.hi_frame])))
  <> Ok (0x60, b_ "hi") /\
  written (_handle (session (snd (send_command 0x60 (b_ "hi") false
                                     (Sample.world Sample.keyed_session)))))
  <> [Sample.hi_frame] /\
  received_message Sample.keyed_session (skipn 1 Sample.hi_frame)
  = Raise AssertionError.
Proof.
  split; [reflexivity|]. split; [vm_compute; reflexivity|].
  split; [vm_compute; discriminate|].
  split; [vm_compute; discriminate | vm_compute; reflexivity].
Qed.

Lemma always_unencrypted_exemption_witness :
  exists frame,
    build_message 0x14 [x11] = Ok frame /\
    send_command 0x14 [x11] false (Sample.world Sample.keyed_session)
    = handle_write frame (Sample.world Sample.keyed_session).
Proof.
  apply (always_unencrypted_exemption (P := Sample.primitives)).
  - cbn [In]. do 6 right. left. reflexivity.
  - simpl. lia.
Defined.

Lemma keepalive_transparency_witness :
  read_response_depth 1000 false Sample.keepalive_world
  = (Ok (0x60, b_ "hi"),
     set_pending Sample.keepalive_world [Sample.report 0x60 (b_ "yo")]).
Proof.
  assert (Hk : Forall keepalive_report
                 [Sample.report 0x22 [x00]; Sample.report 0x22 [x01; x02]])
    by (repeat constructor).
  destruct (keepalive_transparency 1000 false Sample.keepalive_world
              [Sample.report 0x22 [x00]; Sample.report 0x22 [x01; x02]]
              (Sample.report 0x60 (b_ "hi")) [Sample.report 0x60 (b_ "yo")]
              eq_refl Hk ltac:(cbn; lia)) as [_ H].
  destruct (H (0x60, b_ "hi")) as [Hreturns _].
  - vm_compute. reflexivity.
  - cbn. discriminate.
  - apply Hreturns. intros [E | [E | E]]; discriminate.
Defined.

(** C5 as stated fails. After a keep-alive, the reply to an unknown message
    is not returned: a command error is raised. And keep-alives are not
    skipped whatever their number: with room for 1000 nested calls, which is
    more than the default recursion limit of 1000 frames leaves, 1000
    keep-alives before a text report end in [RecursionError]. *)
Lemma read_response_raises_after_keepalives :
  fst (read_response_depth 1000 false Sample.unknown_message_world)
  = Raise (CommandError (Literal "Invalid command")) /\
  fst (read_response_depth 1000 false Scenario.flood_world)
  = Raise RecursionError.
Proof.
  split; vm_compute; reflexivity.
Qed.

Lemma read_response_classification_witness :
  read_response false Sample.unknown_message_world
  = (Raise (CommandError (Literal "Invalid command")),
     set_pending Sample.unknown_message_world []).
Proof.
  assert (Hk : Forall keepalive_report [Sample.report 0x22 [x00]])
    by (repeat constructor).
  assert (Hm : received_message (session Sample.unknown_message_world)
                                (Sample.report 0x30 [x85]) = Ok (0x30, [x85]))
    by (vm_compute; reflexivity).
  assert (Hka : fst (0x30, [x85]) <> 0x22) by (cbn; discriminate).
  exact (proj1 (read_response_classification false Sample.unknown_message_world
                  [Sample.report 0x22 [x00]] (Sample.report 0x30 [x85]) []
                  (0x30, [x85]) eq_refl Hk Hm Hka) eq_refl).
Defined.

Lemma short_report_payload_witness :
  received_message (session Sample.short_report_world) [x60; xff; x01]
  = Ok (0x60, [x01]) /\
  read_response false Sample.short_report_world
  = (Ok (0x60, [x01]), set_pending Sample.short_report_world []).
Proof.
  assert (Hshort : Z.of_nat (List.length [x01]) < byte_val xff)
    by (vm_compute; reflexivity).
  destruct (short_report_payload false Sample.short_report_world
              [x60; xff; x01] [] x60 x60 xff [x01] eq_refl eq_refl eq_refl Hshort)
    as [H1 H2].
  split; [exact H1|]. apply H2.
  - vm_compute. discriminate.
  - intros [E | [E | E]]; discriminate.
Defined.

Lemma decrypt_message_checks_then_decrypts_witness :
  decrypt_message Sample.keyed_session Sample.high_tagged_report
  = Ok (slice 0 1 Sample.high_tagged_report ++
        Sample.encrypt 5
          (int_from_bytes_big (slice 56 60 Sample.high_tagged_report) * 2 ^ 8)
          (slice 1 56 Sample.high_tagged_report) ++
        slice_from 56 Sample.high_tagged_report).
Proof.
  assert (Htag : 0 <= Sample.sign 7 (slice 0 60 Sample.high_tagged_report) < 2 ^ 64)
    by (vm_compute; split; [discriminate | reflexivity]).
  destruct (decrypt_message_checks_then_decrypts (P := Sample.primitives)
              Sample.keyed_session Sample.high_tagged_report 5 7
              eq_refl eq_refl Htag) as [_ [H _]].
  apply H. vm_compute. reflexivity.
Defined.

(** C1 as stated fails: a report that ends in the four low bytes of its
    tag, least significant first, is refused. *)
Lemma low_bytes_of_tag_are_rejected :
  slice 60 64 Sample.low_tagged_report
  = le_bytes 4 (Sample.sign 7 (slice 0 60 Sample.low_tagged_report) mod 2 ^ 32) /\
  decrypt_message Sample.keyed_session Sample.low_tagged_report
  = Raise AssertionError.
Proof. split; vm_compute; reflexivity. Qed.

Lemma checksum_law_witness :
  _verify_checksum (Bytes (b_ "hello"))
                   (hex8 (sum (map byte_val (b_ "hello")) mod 2 ^ 32)) = Ok tt /\
  exists expected calculated,
    _verify_checksum (Bytes (b_ "hellp"))
                     (hex8 (sum (map byte_val (b_ "hello")) mod 2 ^ 32))
    = Raise (ChecksumError expected calculated).
Proof.
  destruct (checksum_law (b_ "hello")) as [H1 H2]. split.
  - apply H1. vm_compute. reflexivity.
  - apply (H2 (b_ "hellp")).
    apply (mutation_at (b_ "hell") [] "o"%byte "p"%byte). discriminate.
Defined.

(** C2 as stated fails: a byte string whose bytes add up to [2 ^ 32] or more
    does not verify against the digits of its sum modulo [2 ^ 32]. *)
Lemma checksum_fails_on_long_message :
  _verify_checksum (Bytes Sample.long_message)
                   (hex8 (sum (map byte_val Sample.long_message) mod 2 ^ 32))
  = Raise (ChecksumError 254 4294967550).
Proof.
  unfold Sample.long_message.
  rewrite (verify_checksum_bytes _ _ 254).
  - rewrite sum_repeat, N_nat_Z. reflexivity.
  - rewrite sum_repeat, N_nat_Z. vm_compute. reflexivity.
Qed.

Lemma multirecord_count_not_compared_witness :
  fst (query_multirecord (b_ "$history?") Sample.multirecord_world)
  = Ok (CsvReader [[97; 44; 49]; [98; 44; 50]; []]).
Proof.
  rewrite (multirecord_count_not_compared 
             (b_ "$history?") Sample.multirecord_world
             (snd (_send_text_command_raw (b_ "$history?") Sample.multirecord_world))
             Sample.two_records (b_ "7") (b_ "000001AC")
             (Sample.decode_ascii (Sample.two_records ++ CRLF))).
  - reflexivity.
  - vm_compute. reflexivity.
  - discriminate.
  - discriminate.
  - reflexivity.
  - reflexivity.
  - reflexivity.
  - reflexivity.
  - reflexivity.
Defined.

Lemma session_keys_change_only_by_handshake_witness :
  session_keys
    (session (after_call (Call_send_command 0x60 (b_ "hi") false)
                         (Sample.world Sample.keyed_session)))
  = session_keys (session (Sample.world Sample.keyed_session)).
Proof.
  apply (session_keys_change_only_by_handshake (P := Sample.primitives)).
  left. reflexivity.
Defined.

(** C9 as stated fails: [connect] on an encrypted profile runs the handshake
    again, and the keys of a session that already had keys are replaced. *)
Lemma second_handshake_replaces_keys :
  fst (connect Sample.twice_connected_world) = Ok tt /\
  session_keys (session (after_call Call_connect Sample.twice_connected_world))
  = (Some 48064983074897479812004443218464981053,
     Some 315365453108142866139689960705001050616) /\
  fst (connect (after_call Call_connect Sample.twice_connected_world)) = Ok tt /\
  session_keys
    (session (after_call Call_connect
                (after_call Call_connect Sample.twice_connected_world)))
  = (Some 48064983074897484722635350490536522111,
     Some 315365453108142871050320867977072591674).
Proof. repeat split; vm_compute; reflexivity. Qed.

End ConcreteRuns.

(** ** Sending *)

Lemma build_message_bad_type (t : Z) (command : bytes) :
  t < 0 \/ 255 < t -> build_message t command = Raise FormatFieldError.
Proof.
  intros Ht. unfold_codec.
  change (0 <=? 0) with true. change (0 <=? 255) with true. cbv [andb].
  replace (if 0 <=? t then t <=? 255 else false) with false; [reflexivity|].
  destruct (Z.leb_spec 0 t); [|reflexivity].
  symmetry. apply Z.leb_gt. lia.
Qed.

Section Sending.
Context {P : Primitives}.

(** X1. [send_command] either raises and leaves everything as it was, or
    returns after adding exactly one report to those written: it never
    takes a report off the queue, draws random bytes or touches the keys. *)
Theorem send_command_writes_one_report_or_nothing
        (t : Z) (command : bytes) (encrypted : bool) (w : World) :
  (exists frame, send_command t command encrypted w = handle_write frame w) \/
  (exists e, send_command t command encrypted w = (Raise e, w)).
Proof.
  unfold send_command, bind, lift, get_self.
  destruct (build_message t command) as [frame|e]; [|right; exists e; reflexivity].
  destruct (_encrypted_protocol (session w) &&
            negb (Z_in t _ALWAYS_UNENCRYPTED_MESSAGES)).
  - destruct (encrypt_message (session w) frame) as [frame'|e].
    + left. exists frame'. reflexivity.
    + right. exists e. reflexivity.
  - left. exists frame. reflexivity.
Qed.

(** X2. A message type outside [0, 255] or a command of more than 62 bytes
    makes [send_command] raise before anything is written. *)
Theorem send_command_rejects_unbuildable
        (t : Z) (command : bytes) (encrypted : bool) (w : World) :
  t < 0 \/ 255 < t \/ (62 < List.length command)%nat ->
  exists e, send_command t command encrypted w = (Raise e, w).
Proof.
  intros Hbad.
  assert (Hbuild : exists e, build_message t command = Raise e).
  { destruct Hbad as [H | [H | H]].
    - exists FormatFieldError. apply build_message_bad_type. lia.
    - exists FormatFieldError. apply build_message_bad_type. lia.
    - apply build_message_too_long. exact H. }
  destruct Hbuild as [e He]. exists e.
  unfold send_command, bind, lift. rewrite He. reflexivity.
Qed.

(** X3. On an encrypted profile, a message of a type that is not exempt
    cannot be sent before the handshake has set both keys: [send_command]
    raises [AttributeError] and writes nothing. *)
Theorem send_command_needs_keys
        (t : Z) (command : bytes) (encrypted : bool) (w : World) :
  _encrypted_protocol (session w) = true ->
  Z_in t _ALWAYS_UNENCRYPTED_MESSAGES = false ->
  0 <= t <= 255 -> (List.length command <= 62)%nat ->
  crypt_enc (session w) = None \/
  (crypt_mac (session w) = None) ->
  send_command t command encrypted w = (Raise AttributeError, w).
Proof.
  intros Henc Hex Ht Hlen Hkeys.
  unfold send_command, bind, lift, get_self.
  rewrite build_message_fits by assumption.
  rewrite Henc, Hex. cbn [andb negb].
  unfold encrypt_message.
  destruct Hkeys as [-> | Hmac]; [reflexivity|].
  destruct (crypt_enc (session w)); [|reflexivity].
  rewrite Hmac. reflexivity.
Qed.

End Sending.

(** ** Protecting a frame *)

Lemma firstn_app_exact {X} (a b : list X) (n : nat) :
  List.length a = n -> firstn n (a ++ b) = a.
Proof.
  intros <-. rewrite firstn_app, Nat.sub_diag, firstn_all, firstn_O, app_nil_r.
  reflexivity.
Qed.

Lemma skipn_app_exact {X} (a b : list X) (n : nat) :
  List.length a = n -> skipn n (a ++ b) = b.
Proof.
  intros <-. rewrite skipn_app, Nat.sub_diag, skipn_all. reflexivity.
Qed.

Lemma int_to_bytes_little_in_range (z : Z) (n : nat) :
  0 <= z < 256 ^ Z.of_nat n -> int_to_bytes_little z n = Ok (le_bytes n z).
Proof.
  intros Hz. unfold int_to_bytes_little.
  replace ((0 <=? z) && (z <? 256 ^ Z.of_nat n)) with true; [reflexivity|].
  symmetry. apply andb_true_iff. split; [apply Z.leb_le | apply Z.ltb_lt]; lia.
Qed.

Lemma high_tag_bytes (tag : Z) :
  slice_from 4 (le_bytes 8 tag) = le_bytes 4 (tag / 2 ^ 32).
Proof.
  unfold slice_from. change (le_bytes 8 tag) with (le_bytes (4 + 4) tag).
  rewrite (le_bytes_skipn 4 4 tag). reflexivity.
Qed.

Lemma int_from_bytes_big_zeros (n : nat) : int_from_bytes_big (zeros n) = 0.
Proof.
  unfold int_from_bytes_big, zeros.
  induction n as [|n IH]; [reflexivity|]. cbn [repeat fold_left]. exact IH.
Qed.

Section Protection.
Context {P : Primitives}.

(** What [encrypt_message] makes of a frame of 65 bytes when the cipher
    returns as many bytes as it is given. *)
Lemma encrypt_message_frame (self : Session) (packet : bytes) (enc_key mac_key : Z) :
  crypt_enc self = Some enc_key ->
  crypt_mac self = Some mac_key ->
  List.length packet = 65%nat ->
  List.length (SpeckEncrypt_encrypt enc_key 0xFF (slice 2 57 packet)) = 55%nat ->
  encrypt_message self packet =
  rbind (int_to_bytes_little
           (SpeckCMAC_sign mac_key
              (slice 1 2 packet ++
               SpeckEncrypt_encrypt enc_key 0xFF (slice 2 57 packet) ++ zeros 4)) 8)
        (fun tag =>
           Ok (firstn 2 packet ++
               SpeckEncrypt_encrypt enc_key 0xFF (slice 2 57 packet) ++
               zeros 4 ++ slice_from 4 tag)).
Proof.
  intros Henc Hmac Hlen Hcipher.
  unfold encrypt_message. rewrite Henc, Hmac. cbn [attr rbind].
  set (E := SpeckEncrypt_encrypt enc_key 0xFF (slice 2 57 packet)) in *.
  clearbody E.
  destruct packet as [|b0 [|b1 rest]]; try (cbn in Hlen; lia).
  assert (Hrest : List.length rest = 63%nat) by (cbn in Hlen; lia).
  change (slice 1 2 (b0 :: b1 :: rest)) with [b1].
  change (firstn 2 (b0 :: b1 :: rest)) with [b0; b1].
  assert (Hout : set_slice 57 61 (set_slice 2 57 (b0 :: b1 :: rest) E) (zeros 4)
                 = ([b0; b1] ++ E ++ zeros 4) ++ skipn 59 rest).
  { unfold set_slice.
    change (firstn 2 (b0 :: b1 :: rest)) with [b0; b1].
    change (skipn 57 (b0 :: b1 :: rest)) with (skipn 55 rest).
    rewrite (app_assoc [b0; b1] E).
    rewrite firstn_app_exact by (rewrite length_app, Hcipher; reflexivity).
    rewrite skipn_app, length_app, Hcipher.
    rewrite skipn_all2 by (rewrite length_app, Hcipher; cbn; lia).
    change (61 - (List.length [b0; b1] + 55))%nat with 4%nat.
    rewrite skipn_skipn. rewrite <- !app_assoc. reflexivity. }
  rewrite Hout.
  assert (Hlen61 : List.length ([b0; b1] ++ E ++ zeros 4) = 61%nat)
    by (rewrite !length_app, zeros_length, Hcipher; reflexivity).
  assert (Hmacin : slice 1 61 (([b0; b1] ++ E ++ zeros 4) ++ skipn 59 rest)
                   = [b1] ++ E ++ zeros 4).
  { unfold slice.
    change (skipn 1 (([b0; b1] ++ E ++ zeros 4) ++ skipn 59 rest))
      with (([b1] ++ E ++ zeros 4) ++ skipn 59 rest).
    apply firstn_app_exact.
    rewrite !length_app, zeros_length, Hcipher. reflexivity. }
  rewrite Hmacin.
  destruct (int_to_bytes_little _ 8) as [tag|e]; [|reflexivity].
  cbn [rbind]. f_equal. unfold set_slice.
  rewrite firstn_app_exact by exact Hlen61.
  rewrite (skipn_all2 (n := 65))
    by (rewrite length_app, length_skipn, Hlen61, Hrest; cbn; lia).
  rewrite app_nil_r, <- !app_assoc. reflexivity.
Qed.


Lemma protected_region_agrees (c1 c2 : bytes) :
  List.length c1 = List.length c2 -> firstn 54 c1 = firstn 54 c2 ->
  protected_region c1 = protected_region c2.
Proof.
  intros Hlen Hhead. unfold protected_region.
  rewrite !firstn_app, Hlen, Hhead. reflexivity.
Qed.

(** The frame [send_command] protects, and what it encrypts of it. *)
Lemma built_frame_parts (t : Z) (command : bytes) :
  0 <= t <= 255 -> (List.length command <= 62)%nat ->
  exists frame,
    build_message t command = Ok frame /\
    List.length frame = 65%nat /\
    firstn 2 frame = [x00; byte_of_Z t] /\
    slice 1 2 frame = [byte_of_Z t] /\
    slice 2 57 frame = protected_region command.
Proof.
  intros Ht Hlen. eexists. split; [apply build_message_fits; assumption|].
  split; [|repeat split].
  cbn [List.length]. rewrite length_app, zeros_length. lia.
Qed.

(** X4. On an encrypted profile with both keys set, a message of a type
    that is not exempt is written as: the report id and the message type in
    clear, the encryption under IV [0xFF] of the length byte and the first
    54 bytes of the padded command, four zero bytes, and the four most
    significant bytes of the CMAC of everything after the report id. *)
Theorem send_command_protected_frame
        (t : Z) (command : bytes) (encrypted : bool) (w : World)
        (enc_key mac_key : Z) :
  _encrypted_protocol (session w) = true ->
  Z_in t _ALWAYS_UNENCRYPTED_MESSAGES = false ->
  0 <= t <= 255 -> (List.length command <= 62)%nat ->
  crypt_enc (session w) = Some enc_key ->
  crypt_mac (session w) = Some mac_key ->
  List.length (SpeckEncrypt_encrypt enc_key 0xFF (protected_region command)) = 55%nat ->
  0 <= SpeckCMAC_sign mac_key
         ([byte_of_Z t] ++
          SpeckEncrypt_encrypt enc_key 0xFF (protected_region command) ++ zeros 4)
    < 2 ^ 64 ->
  send_command t command encrypted w =
  handle_write
    ([x00; byte_of_Z t] ++
     SpeckEncrypt_encrypt enc_key 0xFF (protected_region command) ++
     zeros 4 ++
     le_bytes 4
       (SpeckCMAC_sign mac_key
          ([byte_of_Z t] ++
           SpeckEncrypt_encrypt enc_key 0xFF (protected_region command) ++ zeros 4)
        / 2 ^ 32))
    w.
Proof.
  intros Hprof Hex Ht Hlen Henc Hmac Hcipher Htag.
  destruct (built_frame_parts t command Ht Hlen)
    as [frame [Hbuild [Hlen65 [Hhead [Htype Hregion]]]]].
  unfold send_command, bind, lift, get_self.
  rewrite Hbuild, Hprof, Hex. cbn [andb negb].
  rewrite (encrypt_message_frame (session w) frame enc_key mac_key Henc Hmac Hlen65)
    by (rewrite Hregion; exact Hcipher).
  rewrite Hhead, Htype, Hregion.
  rewrite int_to_bytes_little_in_range
    by (change (256 ^ Z.of_nat 8) with (2 ^ 64); exact Htag).
  cbn [rbind]. rewrite high_tag_bytes. reflexivity.
Qed.

(** X5. On an encrypted profile with both keys set, a command sent under a
    message type that is not exempt from encryption reaches the device in
    its first 54 bytes only: two commands of the same length that agree on
    their first 54 bytes are sent as the same report. *)
Theorem send_command_drops_bytes_after_54
        (t : Z) (c1 c2 : bytes) (encrypted : bool) (w : World)
        (enc_key mac_key : Z) :
  _encrypted_protocol (session w) = true ->
  Z_in t _ALWAYS_UNENCRYPTED_MESSAGES = false ->
  0 <= t <= 255 ->
  (List.length c1 <= 62)%nat -> List.length c1 = List.length c2 ->
  firstn 54 c1 = firstn 54 c2 ->
  crypt_enc (session w) = Some enc_key ->
  crypt_mac (session w) = Some mac_key ->
  List.length (SpeckEncrypt_encrypt enc_key 0xFF (protected_region c1)) = 55%nat ->
  send_command t c1 encrypted w = send_command t c2 encrypted w.
Proof.
  intros Hprof Hex Ht Hlen1 Hlen Hhead Henc Hmac Hcipher.
  assert (Hlen2 : (List.length c2 <= 62)%nat) by lia.
  pose proof (protected_region_agrees c1 c2 Hlen Hhead) as Hsame.
  destruct (built_frame_parts t c1 Ht Hlen1)
    as [f1 [Hb1 [Hl1 [Hh1 [Ht1 Hr1]]]]].
  destruct (built_frame_parts t c2 Ht Hlen2)
    as [f2 [Hb2 [Hl2 [Hh2 [Ht2 Hr2]]]]].
  unfold send_command, bind, lift, get_self.
  rewrite Hb1, Hb2, Hprof, Hex. cbn [andb negb].
  rewrite (encrypt_message_frame (session w) f1 enc_key mac_key Henc Hmac Hl1)
    by (rewrite Hr1; exact Hcipher).
  rewrite (encrypt_message_frame (session w) f2 enc_key mac_key Henc Hmac Hl2)
    by (rewrite Hr2, <- Hsame; exact Hcipher).
  rewrite Hh1, Hh2, Ht1, Ht2, Hr1, Hr2, Hsame. reflexivity.
Qed.

(** X6. A frame protected by [encrypt_message], taken without its report
    id, passes the check of [decrypt_message]: the tag written at bytes 61
    to 65 is the one expected at bytes 60 to 64. It is then decrypted under
    IV 0, the value of its zeroed counter field, though it was encrypted
    under IV [0xFF]. *)
Theorem protected_frame_passes_the_check
        (self : Session) (packet : bytes) (enc_key mac_key : Z) :
  crypt_enc self = Some enc_key ->
  crypt_mac self = Some mac_key ->
  List.length packet = 65%nat ->
  List.length (SpeckEncrypt_encrypt enc_key 0xFF (slice 2 57 packet)) = 55%nat ->
  0 <= SpeckCMAC_sign mac_key
         (slice 1 2 packet ++
          SpeckEncrypt_encrypt enc_key 0xFF (slice 2 57 packet) ++ zeros 4)
    < 2 ^ 64 ->
  exists out,
    encrypt_message self packet = Ok out /\
    decrypt_message self (skipn 1 out) =
    Ok (slice 1 2 packet ++
        SpeckEncrypt_decrypt enc_key 0
          (SpeckEncrypt_encrypt enc_key 0xFF (slice 2 57 packet)) ++
        skipn 57 out).
Proof.
  intros Henc Hmac Hlen Hcipher Htag.
  rewrite (encrypt_message_frame self packet enc_key mac_key Henc Hmac Hlen Hcipher).
  rewrite int_to_bytes_little_in_range
    by (change (256 ^ Z.of_nat 8) with (2 ^ 64); exact Htag).
  cbn [rbind]. rewrite high_tag_bytes.
  set (E := SpeckEncrypt_encrypt enc_key 0xFF (slice 2 57 packet)) in *.
  set (tag := SpeckCMAC_sign mac_key (slice 1 2 packet ++ E ++ zeros 4)) in *.
  clearbody E.
  destruct packet as [|b0 [|b1 rest]]; try (cbn in Hlen; lia).
  change (slice 1 2 (b0 :: b1 :: rest)) with [b1] in *.
  change (firstn 2 (b0 :: b1 :: rest)) with [b0; b1].
  eexists. split; [reflexivity|].
  change (skipn 1 ([b0; b1] ++ E ++ zeros 4 ++ le_bytes 4 (tag / 2 ^ 32)))
    with ([b1] ++ E ++ zeros 4 ++ le_bytes 4 (tag / 2 ^ 32)).
  set (T := le_bytes 4 (tag / 2 ^ 32)).
  assert (HT : List.length T = 4%nat) by apply le_bytes_length.
  assert (H60 : List.length ([b1] ++ E ++ zeros 4) = 60%nat)
    by (rewrite !length_app, zeros_length, Hcipher; reflexivity).
  assert (H56 : List.length ([b1] ++ E) = 56%nat)
    by (rewrite length_app, Hcipher; reflexivity).
  unfold decrypt_message. rewrite Hmac, Henc. cbn [attr rbind].
  assert (Hin : slice_to 60 ([b1] ++ E ++ zeros 4 ++ T) = [b1] ++ E ++ zeros 4).
  { unfold slice_to.
    replace ([b1] ++ E ++ zeros 4 ++ T) with (([b1] ++ E ++ zeros 4) ++ T)
      by (rewrite <- !app_assoc; reflexivity).
    apply firstn_app_exact. exact H60. }
  rewrite Hin. fold tag.
  rewrite int_to_bytes_little_in_range
    by (change (256 ^ Z.of_nat 8) with (2 ^ 64); exact Htag).
  cbn [rbind]. rewrite high_tag_bytes. fold T.
  assert (Htagfield : slice 60 64 ([b1] ++ E ++ zeros 4 ++ T) = T).
  { unfold slice.
    replace ([b1] ++ E ++ zeros 4 ++ T) with (([b1] ++ E ++ zeros 4) ++ T)
      by (rewrite <- !app_assoc; reflexivity).
    rewrite skipn_app_exact by exact H60.
    apply firstn_all2. rewrite HT. cbn. lia. }
  rewrite Htagfield, bytes_eqb_refl. cbn [assert rbind].
  assert (Hiv : slice 56 60 ([b1] ++ E ++ zeros 4 ++ T) = zeros 4).
  { unfold slice.
    replace ([b1] ++ E ++ zeros 4 ++ T) with (([b1] ++ E) ++ zeros 4 ++ T)
      by (rewrite <- !app_assoc; reflexivity).
    rewrite skipn_app_exact by exact H56.
    apply firstn_app_exact. apply zeros_length. }
  rewrite Hiv, int_from_bytes_big_zeros.
  change (Z.shiftl 0 8) with 0.
  assert (Hct : slice 1 56 ([b1] ++ E ++ zeros 4 ++ T) = E).
  { unfold slice.
    change (skipn 1 ([b1] ++ E ++ zeros 4 ++ T)) with (E ++ zeros 4 ++ T).
    apply firstn_app_exact. rewrite Hcipher. reflexivity. }
  rewrite Hct. reflexivity.
Qed.

End Protection.

(** ** Reading: malformed reports, missing keys, the queue *)

Section ReadingEdges.
Context {P : Primitives}.

(** X7. A report with no bytes makes [read_response] fail its assertion,
    and a report of one byte, which has no length byte, makes it raise
    [IndexError] (on a plain profile or for an exempt type); either way the
    report has been taken off the queue. *)
Theorem read_response_malformed_report
        (encrypted : bool) (w : World) (report : bytes) (rest : list bytes) :
  pending (_handle (session w)) = report :: rest ->
  (report = [] ->
   read_response encrypted w = (Raise AssertionError, set_pending w rest)) /\
  (forall first,
      report = [first] ->
      _encrypted_protocol (session w) = false \/
      Z_in (byte_val first) _ALWAYS_UNENCRYPTED_MESSAGES = true ->
      read_response encrypted w = (Raise IndexError, set_pending w rest)).
Proof.
  intros Hp. split.
  - intros ->. rewrite (read_response_cons encrypted w [] rest Hp). reflexivity.
  - intros first -> Hplain.
    rewrite (read_response_cons encrypted w [first] rest Hp).
    unfold received_message.
    cbn [List.length Nat.eqb negb assert rbind index nth_error].
    replace (_encrypted_protocol (session w) &&
             negb (Z_in (byte_val first) _ALWAYS_UNENCRYPTED_MESSAGES))
      with false
      by (destruct Hplain as [-> | ->]; [reflexivity | symmetry; apply andb_false_r]).
    reflexivity.
Qed.

(** X8. On an encrypted profile, a report of a type that is not exempt
    cannot be read before the handshake has set the MAC key:
    [read_response] raises [AttributeError], and the report is lost. *)
Theorem read_response_needs_keys
        (encrypted : bool) (w : World) (first : byte) (tail : bytes)
        (rest : list bytes) :
  pending (_handle (session w)) = (first :: tail) :: rest ->
  _encrypted_protocol (session w) = true ->
  Z_in (byte_val first) _ALWAYS_UNENCRYPTED_MESSAGES = false ->
  crypt_mac (session w) = None ->
  read_response encrypted w = (Raise AttributeError, set_pending w rest).
Proof.
  intros Hp Hprof Hex Hmac.
  rewrite (read_response_cons encrypted w (first :: tail) rest Hp).
  unfold received_message.
  cbn [List.length Nat.eqb negb assert rbind index nth_error].
  rewrite Hprof, Hex. cbn [andb negb].
  unfold decrypt_message. rewrite Hmac. reflexivity.
Qed.

(** X9. [read_response] only takes reports off the head of the queue: what
    is left is a suffix of what was pending, nothing else of the state
    changes (nothing is written, no key is set, no random byte drawn), and
    a call that returns has taken at least one report. *)
Theorem read_response_only_consumes (encrypted : bool) (w : World) :
  exists taken,
    pending (_handle (session w))
    = taken ++ pending (_handle (session (snd (read_response encrypted w)))) /\
    snd (read_response encrypted w)
    = set_pending w (pending (_handle (session (snd (read_response encrypted w))))) /\
    (forall m, fst (read_response encrypted w) = Ok m -> taken <> []).
Proof.
  remember (pending (_handle (session w))) as reports eqn:Hp. symmetry in Hp.
  revert w Hp. induction reports as [|report rest IH]; intros w Hp.
  - exists []. rewrite (read_response_empty encrypted w Hp). cbn [fst snd].
    rewrite Hp. repeat split.
    + symmetry. apply set_pending_same. exact Hp.
    + discriminate.
  - rewrite (read_response_cons encrypted w report rest Hp).
    assert (Hstop : forall r : result message,
               exists taken,
                 report :: rest = taken ++ pending (_handle (session (snd (r, set_pending w rest)))) /\
                 snd (r, set_pending w rest)
                 = set_pending w (pending (_handle (session (snd (r, set_pending w rest))))) /\
                 (forall m, fst (r, set_pending w rest) = Ok m -> taken <> [])).
    { intros r. exists [report]. repeat split. discriminate. }
    destruct (received_message (session w) report) as [m|e]; [|apply Hstop].
    destruct (_is_keepalive_response m).
    + destruct (IH (set_pending w rest) eq_refl) as [taken [H1 [H2 H3]]].
      exists (report :: taken). repeat split.
      * cbn [app]. f_equal. exact H1.
      * rewrite H2 at 1. reflexivity.
      * discriminate.
    + destruct (_is_unknown_message_error m); [apply Hstop|].
      destruct (_is_encryption_missing_error m); [apply Hstop|].
      destruct (_is_encryption_setup_error m); apply Hstop.
Qed.

End ReadingEdges.

(** ** Connecting and the handshake *)

Section Connecting.
Context {P : Primitives}.

(** Sending a message of an exempt type that fits: the frame is written as
    built. *)
Lemma send_command_exempt (t : Z) (command : bytes) (encrypted : bool) (w : World)
      (frame : bytes) :
  Z_in t _ALWAYS_UNENCRYPTED_MESSAGES = true ->
  build_message t command = Ok frame ->
  send_command t command encrypted w = handle_write frame w.
Proof.
  intros Hex Hb. unfold send_command, bind, lift, get_self.
  rewrite Hb, Hex, andb_false_r. reflexivity.
Qed.

(** X11. On a plain profile [connect] writes the init frame, skips any
    keep-alives and reads one message: it returns when that message is type
    [0x71] with the one byte [0x01], and raises a connection error carrying
    the message when it is any other message that is not an error reply. *)
Theorem connect_plain_profile
        (w : World) (keepalives : list bytes) (report : bytes)
        (rest : list bytes) (m : message) :
  _encrypted_protocol (session w) = false ->
  pending (_handle (session w)) = keepalives ++ report :: rest ->
  Forall keepalive_report keepalives ->
  received_message (session w) report = Ok m ->
  fst m <> 0x22 -> ~ error_reply m ->
  (m = (0x71, [x01]) ->
   connect w = (Ok tt, set_pending (snd (handle_write init_frame w)) rest)) /\
  (m <> (0x71, [x01]) ->
   connect w = (Raise (ConnectionError (fst m) (snd m)),
                set_pending (snd (handle_write init_frame w)) rest)).
Proof.
  intros Hprof Hp Hk Hm Hka Herr.
  assert (Hrun : connect w =
                 (if negb (_is_init_reply m)
                  then Raise (ConnectionError (fst m) (snd m)) else Ok tt,
                  set_pending (snd (handle_write init_frame w)) rest)).
  { unfold connect, bind at 1 2, get_self. rewrite Hprof.
    unfold ret at 1. unfold bind at 1.
    rewrite (send_command_exempt _INIT_COMMAND [] false w init_frame eq_refl eq_refl).
    set (w1 := snd (handle_write init_frame w)).
    change (handle_write init_frame w) with (@Ok unit tt, w1).
    cbv iota. unfold bind.
    rewrite (read_response_skips_keepalives false keepalives w1 (report :: rest) Hp Hk).
    rewrite (read_response_returns false (set_pending w1 (report :: rest))
               report rest m eq_refl Hm Hka Herr).
    destruct (negb (_is_init_reply m)); reflexivity. }
  rewrite Hrun. split.
  - intros ->. reflexivity.
  - intros Hne.
    replace (_is_init_reply m) with false; [reflexivity|].
    symmetry. destruct (_is_init_reply m) eqn:E; [|reflexivity].
    apply matcher_exact in E. contradiction.
Qed.




Lemma assert_ok (c : bool) (u : unit) : assert c = Ok u -> c = true.
Proof. destruct c; [reflexivity | discriminate]. Qed.








End Connecting.

(** ** Text commands *)

Lemma text_reply_format_eq :
  _TEXT_REPLY_FORMAT =
  Re.Cat Re.Bol (Re.Cat (Re.Group "message" (Re.Star Re.Dot)) text_reply_trailer).
Proof. reflexivity. Qed.

Lemma upper_hex_not_K (h : byte) :
  Re.charset_mem Re.upper_hex h = true -> Byte.eqb "K"%byte h = false.
Proof.
  intros Hh. destruct (Byte.eqb "K"%byte h) eqn:E; [|reflexivity].
  apply Byte.byte_dec_bl in E. subst h. discriminate.
Qed.

Ltac decide_byte_tests :=
  repeat match goal with
    | |- context [Byte.eqb ?a ?b] =>
        first
          [ is_var b;
            first [ rewrite (upper_hex_not_K b) by assumption
                  | destruct (Byte.eqb a b) ]
          | let v := eval vm_compute in (Byte.eqb a b) in
            change (Byte.eqb a b) with v ];
        cbv iota
    end.

(** [CKSM:] is found at no proper suffix of the trailer. *)
Lemma lit_cksm_suffix (checksum status : bytes) :
  List.length checksum = 8%nat ->
  forallb (Re.charset_mem Re.upper_hex) checksum = true ->
  status = b_ "OK" \/ status = b_ "Fail!" ->
  forall i, (0 < i)%nat ->
    Re.lit (b_ "CKSM:") (skipn i (text_trailer checksum status)) = None.
Proof.
  intros Hlen Hhex Hstatus i Hi.
  destruct checksum as [|h1 [|h2 [|h3 [|h4 [|h5 [|h6 [|h7 [|h8 [|h9 t]]]]]]]]];
    try discriminate.
  cbn [forallb] in Hhex. rewrite !andb_true_iff in Hhex.
  destruct Hhex as (H1 & H2 & H3 & H4 & H5 & H6 & H7 & H8 & _).
  destruct i as [|i]; [lia|]. clear Hi.
  unfold text_trailer.
  destruct Hstatus as [-> | ->].
  - change (b_ "CKSM:" ++ [h1; h2; h3; h4; h5; h6; h7; h8] ++ CRLF ++ b_ "CMD " ++ b_ "OK" ++ CRLF)
      with ([x43; x4b; x53; x4d; x3a; h1; h2; h3; h4; h5; h6; h7; h8;
             x0d; x0a; x43; x4d; x44; x20; x4f; x4b; x0d; x0a]).
    change (b_ "CKSM:") with [x43; x4b; x53; x4d; x3a].
    do 23 (destruct i as [|i];
           [cbn [skipn Re.lit]; decide_byte_tests; reflexivity|]).
    reflexivity.
  - change (b_ "CKSM:" ++ [h1; h2; h3; h4; h5; h6; h7; h8] ++ CRLF ++ b_ "CMD " ++ b_ "Fail!" ++ CRLF)
      with ([x43; x4b; x53; x4d; x3a; h1; h2; h3; h4; h5; h6; h7; h8;
             x0d; x0a; x43; x4d; x44; x20; x46; x61; x69; x6c; x21; x0d; x0a]).
    change (b_ "CKSM:") with [x43; x4b; x53; x4d; x3a].
    do 26 (destruct i as [|i];
           [cbn [skipn Re.lit]; decide_byte_tests; reflexivity|]).
    reflexivity.
Qed.

Lemma run_alt {A} (r1 r2 : Re.t) (pos : nat) (s : bytes) (g : Re.groups)
      (k : nat -> bytes -> Re.groups -> option A) :
  Re.run (Re.Alt r1 r2) pos s g k =
  match Re.run r1 pos s g k with
  | Some x => Some x
  | None => Re.run r2 pos s g k
  end.
Proof. reflexivity. Qed.

Lemma run_star_dot {A} (pos : nat) (s : bytes) (g : Re.groups)
      (k : nat -> bytes -> Re.groups -> option A) :
  Re.run (Re.Star Re.Dot) pos s g k = Re.star Re.Dot pos s (fun p rest => k p rest g).
Proof. reflexivity. Qed.

Lemma run_text_trailer {A} (checksum status : bytes) (pos : nat) (g : Re.groups)
      (k : nat -> bytes -> Re.groups -> option A) (r : A) :
  List.length checksum = 8%nat ->
  forallb (Re.charset_mem Re.upper_hex) checksum = true ->
  status = b_ "OK" \/ status = b_ "Fail!" ->
  k (pos + 21 + List.length status)%nat []
    (("status"%string, status) :: ("checksum"%string, checksum) :: g) = Some r ->
  Re.run text_reply_trailer pos (text_trailer checksum status) g k = Some r.
Proof.
  intros Hlen Hhex Hstatus Hk.
  unfold text_reply_trailer, text_trailer. cbn [cat_all].
  rewrite run_cat, run_lit_app, run_cat, run_group.
  rewrite <- Hlen at 1. rewrite run_repeat by exact Hhex.
  rewrite run_cat, run_lit_app, run_cat, run_lit_app, run_cat, run_group, run_alt.
  change (List.length (b_ "CKSM:")) with 5%nat.
  change (List.length CRLF) with 2%nat.
  change (List.length (b_ "CMD ")) with 4%nat.
  rewrite Hlen.
  assert (Hend : forall p s0 g0,
             Re.run (Re.Lit status) p (status ++ CRLF) g0
               (fun p0 rest g' =>
                  Re.run (Re.Cat (Re.Lit CRLF) Re.Eol) p0 rest
                    (("status"%string, firstn (p0 - p) s0) :: g') k)
             = k (p + List.length status + 2)%nat []
                 ((("status"%string, firstn (p + List.length status - p) s0)) :: g0)).
  { intros p s0 g0. rewrite run_lit_app, run_cat.
    rewrite <- (app_nil_r CRLF) at 2. rewrite run_lit_app. reflexivity. }
  assert (Hgoal :
            Re.run (Re.Lit status) (pos + 5 + 8 + 2 + 4) (status ++ CRLF)
              (("checksum"%string,
                firstn (pos + 5 + 8 - (pos + 5))
                  (checksum ++ CRLF ++ b_ "CMD " ++ status ++ CRLF)) :: g)
              (fun p0 rest g' =>
                 Re.run (Re.Cat (Re.Lit CRLF) Re.Eol) p0 rest
                   (("status"%string,
                     firstn (p0 - (pos + 5 + 8 + 2 + 4)) (status ++ CRLF)) :: g') k)
            = Some r).
  { rewrite Hend.
    rewrite !firstn_span by (rewrite ?Hlen; lia).
    rewrite <- Hk. f_equal. lia. }
  destruct Hstatus as [-> | ->].
  - rewrite Hgoal. reflexivity.
  - change (Re.run (Re.Lit (b_ "OK")) ?p (b_ "Fail!" ++ CRLF) ?g0 ?k0) with (@None A).
    exact Hgoal.
Qed.

(** The text reply pattern on a body followed by the trailer: the message
    group is the body, whatever bytes it holds. *)
Lemma search_text_reply (body checksum status : bytes) :
  List.length checksum = 8%nat ->
  forallb (Re.charset_mem Re.upper_hex) checksum = true ->
  status = b_ "OK" \/ status = b_ "Fail!" ->
  Re.search _TEXT_REPLY_FORMAT (body ++ text_trailer checksum status) =
  Some [("status"%string, status); ("checksum"%string, checksum);
        ("message"%string, body)].
Proof.
  intros Hlen Hhex Hstatus.
  unfold Re.search.
  assert (Hrun : Re.run _TEXT_REPLY_FORMAT 0 (body ++ text_trailer checksum status) []
                   (fun _ _ g => Some g) =
                 Some [("status"%string, status); ("checksum"%string, checksum);
                       ("message"%string, body)]).
  { rewrite text_reply_format_eq, run_cat, run_bol, run_cat, run_group, run_star_dot.
    apply star_dot_backs_off.
    - intros p i Hi. unfold text_reply_trailer. cbn [cat_all].
      rewrite run_cat. cbn [Re.run].
      rewrite (lit_cksm_suffix checksum status Hlen Hhex Hstatus i Hi). reflexivity.
    - apply run_text_trailer; [exact Hlen | exact Hhex | exact Hstatus |].
      rewrite firstn_span; [reflexivity | lia]. }
  destruct (body ++ text_trailer checksum status);
    cbn [Re.search_from]; rewrite Hrun; reflexivity.
Qed.

(** The completion pattern finds its token wherever it stands. *)
Lemma search_completion_found (status : bytes) (before after : bytes) :
  status = b_ "OK" \/ status = b_ "Fail!" ->
  exists g, Re.search _TEXT_COMPLETION_RE (before ++ b_ "CMD " ++ status ++ after)
            = Some g.
Proof.
  intros Hstatus. unfold Re.search. generalize 0%nat.
  induction before as [|c before IH]; intros pos.
  - assert (Hrun : exists g,
               Re.run _TEXT_COMPLETION_RE pos ([] ++ b_ "CMD " ++ status ++ after) []
                      (fun _ _ g => Some g) = Some g).
    { unfold _TEXT_COMPLETION_RE. cbn [app].
      rewrite run_cat, run_lit_app, run_alt.
      destruct Hstatus as [-> | ->].
      - rewrite run_lit_app. eauto.
      - destruct (Re.run (Re.Lit (b_ "OK")) _ _ _ _); [eauto|].
        rewrite run_lit_app. eauto. }
    destruct Hrun as [g Hg]. exists g.
    destruct ([] ++ b_ "CMD " ++ status ++ after);
      cbn [Re.search_from]; rewrite Hg; reflexivity.
  - cbn [app Re.search_from].
    destruct (Re.run _TEXT_COMPLETION_RE pos _ [] (fun _ _ g => Some g)) as [g|];
      [eauto | apply IH].
Qed.

Section TextReplies.
Context {P : Primitives}.

Lemma free_type_message (self : Session) (content : bytes) :
  reply_type_is_free self ->
  fst (_text_reply_message_type self, content) <> 0x22 /\
  ~ error_reply (_text_reply_message_type self, content).
Proof.
  intros (H22 & H30 & H33). split; [exact H22|].
  intros [E | [E | E]]; injection E as E _; contradiction.
Qed.

Lemma chunk_reports_length (chunks : list chunk) :
  (List.length chunks <= List.length (flat_map chunk_reports chunks))%nat.
Proof.
  induction chunks as [|c chunks IH]; [reflexivity|].
  cbn [flat_map List.length]. unfold chunk_reports at 1.
  rewrite !length_app. cbn [List.length]. lia.
Qed.

(** The loop of [_send_text_command_raw] puts the contents together in the
    order of the reports, skipping keep-alives, and stops at the first
    content that brings a completion token. *)
Lemma text_reply_loop_collects (chunks : list chunk) :
  forall (fuel : nat) (acc : bytes) (w : World) (rest : list bytes),
    chunks <> [] ->
    reply_type_is_free (session w) ->
    Forall (text_chunk (session w)) chunks ->
    pending (_handle (session w)) = flat_map chunk_reports chunks ++ rest ->
    no_early_completion acc (map chunk_content chunks) = true ->
    (exists g, Re.search _TEXT_COMPLETION_RE
                 (acc ++ List.concat (map chunk_content chunks)) = Some g) ->
    (List.length chunks <= fuel)%nat ->
    text_reply_loop fuel acc w
    = (Ok (acc ++ List.concat (map chunk_content chunks)), set_pending w rest).
Proof.
  induction chunks as [|c chunks IH]; intros fuel acc w rest Hne Hfree Hall Hp Hearly Hdone Hfuel;
    [congruence|].
  destruct fuel as [|fuel]; [cbn in Hfuel; lia|].
  inversion Hall as [|? ? [Hka Hmsg] Hall']; subst.
  destruct (free_type_message (session w) (chunk_content c) Hfree) as [H22 Herr].
  cbn [flat_map] in Hp. unfold chunk_reports at 1 in Hp.
  rewrite <- !app_assoc in Hp. cbn [app] in Hp.
  cbn [text_reply_loop]. unfold bind at 1.
  rewrite (read_response_skips_keepalives false (chunk_keepalives c) w _ Hp Hka).
  rewrite (read_response_returns false
             (set_pending w (chunk_report c :: flat_map chunk_reports chunks ++ rest))
             (chunk_report c) (flat_map chunk_reports chunks ++ rest) _
             eq_refl Hmsg H22 Herr).
  unfold bind, get_self. cbn [fst snd].
  change (_text_reply_message_type (session (set_pending _ _)))
    with (_text_reply_message_type (session w)).
  rewrite Z.eqb_refl. cbn [negb].
  cbn [map List.concat] in Hdone |- *.
  destruct chunks as [|c' chunks].
  - cbn [map List.concat] in Hdone |- *. rewrite app_nil_r in Hdone |- *.
    destruct Hdone as [g ->]. reflexivity.
  - cbn [map no_early_completion] in Hearly.
    destruct (Re.search _TEXT_COMPLETION_RE (acc ++ chunk_content c)) as [g|];
      [discriminate|].
    rewrite (IH fuel (acc ++ chunk_content c) _ rest).
    + rewrite <- app_assoc. reflexivity.
    + discriminate.
    + exact Hfree.
    + exact Hall'.
    + reflexivity.
    + exact Hearly.
    + rewrite <- app_assoc. exact Hdone.
    + cbn [List.length] in Hfuel |- *. lia.
Qed.

(** The loop after the command has been written: it returns the contents of
    the chunks and leaves what the device sent after them. *)
Lemma text_reply_loop_after_send
      (command frame : bytes) (w : World) (chunks : list chunk)
      (rest : list bytes) :
  delivers w chunks rest ->
  (exists g, Re.search _TEXT_COMPLETION_RE (reply_content chunks) = Some g) ->
  text_reply_loop
    (S (List.length (pending (_handle (session (snd (handle_write frame w)))))))
    [] (snd (handle_write frame w))
  = (Ok (reply_content chunks), set_pending (snd (handle_write frame w)) rest).
Proof.
  intros (Hfree & Hne & Hall & Hp & Hearly) Hdone.
  apply (text_reply_loop_collects chunks _ [] (snd (handle_write frame w)) rest
           Hne Hfree Hall Hp Hearly Hdone).
  change (pending (_handle (session (snd (handle_write frame w)))))
    with (pending (_handle (session w))).
  rewrite Hp, length_app. pose proof (chunk_reports_length chunks). lia.
Qed.

(** How [_send_text_command_raw] ends when the command has been written and
    the device answers with a body and a trailer, in one report or several:
    the checksum is verified first, the status looked at second. *)
Lemma text_command_outcome
      (command frame : bytes) (w : World) (chunks : list chunk)
      (rest : list bytes) (body checksum status : bytes) :
  send_command (_text_message_type (session w)) command false w
  = handle_write frame w ->
  delivers w chunks rest ->
  reply_content chunks = body ++ text_trailer checksum status ->
  List.length checksum = 8%nat ->
  forallb (Re.charset_mem Re.upper_hex) checksum = true ->
  status = b_ "OK" \/ status = b_ "Fail!" ->
  _send_text_command_raw command w =
  (match _verify_checksum (Bytes body) checksum with
   | Raise e => Raise e
   | Ok _ => if bytes_eqb status (b_ "OK") then Ok body
             else Raise (CommandError (ReprOf body))
   end,
   set_pending (snd (handle_write frame w)) rest).
Proof.
  intros Hsend Hdel Hfull Hlen Hhex Hstatus.
  assert (Hdone : exists g,
             Re.search _TEXT_COMPLETION_RE (reply_content chunks) = Some g).
  { rewrite Hfull. unfold text_trailer.
    replace (body ++ b_ "CKSM:" ++ checksum ++ CRLF ++ b_ "CMD " ++ status ++ CRLF)
      with ((body ++ b_ "CKSM:" ++ checksum ++ CRLF) ++ b_ "CMD " ++ status ++ CRLF)
      by (rewrite <- !app_assoc; reflexivity).
    apply search_completion_found. exact Hstatus. }
  unfold _send_text_command_raw, bind at 1 2 3, get_self.
  rewrite Hsend.
  pose proof (text_reply_loop_after_send command frame w chunks rest Hdel Hdone)
    as Hloop.
  set (w1 := snd (handle_write frame w)) in *.
  change (handle_write frame w) with (@Ok unit tt, w1). cbv iota.
  unfold bind at 1. rewrite Hloop.
  rewrite Hfull, search_text_reply by assumption.
  change (Re.group _ "message") with (@Ok bytes body).
  change (Re.group _ "checksum") with (@Ok bytes checksum).
  change (Re.group _ "status") with (@Ok bytes status).
  unfold bind, lift.
  destruct (_verify_checksum (Bytes body) checksum) as [u|e]; [|reflexivity].
  destruct (bytes_eqb status (b_ "OK")); reflexivity.
Qed.

(** X12. When the device answers a text command with a body, the checksum
    of the body and the status [OK], in one report or spread over several
    with keep-alives in between, [send_text_command] returns the decoded
    body and leaves in the queue what came after the reply. *)
Theorem send_text_command_returns_body
        (command frame : bytes) (w : World) (chunks : list chunk)
        (rest : list bytes) (body checksum : bytes) (text : str) :
  send_command (_text_message_type (session w)) command false w
  = handle_write frame w ->
  delivers w chunks rest ->
  reply_content chunks = body ++ text_trailer checksum (b_ "OK") ->
  List.length checksum = 8%nat ->
  forallb (Re.charset_mem Re.upper_hex) checksum = true ->
  _verify_checksum (Bytes body) checksum = Ok tt ->
  decode_replace (_encoding (session w)) body = Some text ->
  send_text_command command w
  = (Ok text, set_pending (snd (handle_write frame w)) rest).
Proof.
  intros Hsend Hdel Hfull Hlen Hhex Hsum Hdec.
  unfold send_text_command, bind.
  rewrite (text_command_outcome command frame w chunks rest body checksum (b_ "OK")
             Hsend Hdel Hfull Hlen Hhex (or_introl eq_refl)).
  rewrite Hsum, bytes_eqb_refl.
  unfold decode, bind, get_self.
  change (_encoding (session (set_pending (snd (handle_write frame w)) rest)))
    with (_encoding (session w)).
  rewrite Hdec. reflexivity.
Qed.

(** X13. When the reply is well formed and its checksum verifies but its
    status is [Fail!], [send_text_command] raises a command error that
    carries the body. *)
Theorem send_text_command_reports_failure
        (command frame : bytes) (w : World) (chunks : list chunk)
        (rest : list bytes) (body checksum : bytes) :
  send_command (_text_message_type (session w)) command false w
  = handle_write frame w ->
  delivers w chunks rest ->
  reply_content chunks = body ++ text_trailer checksum (b_ "Fail!") ->
  List.length checksum = 8%nat ->
  forallb (Re.charset_mem Re.upper_hex) checksum = true ->
  _verify_checksum (Bytes body) checksum = Ok tt ->
  send_text_command command w
  = (Raise (CommandError (ReprOf body)),
     set_pending (snd (handle_write frame w)) rest).
Proof.
  intros Hsend Hdel Hfull Hlen Hhex Hsum.
  unfold send_text_command, bind.
  rewrite (text_command_outcome command frame w chunks rest body checksum (b_ "Fail!")
             Hsend Hdel Hfull Hlen Hhex (or_intror eq_refl)).
  rewrite Hsum. reflexivity.
Qed.

(** X14. The checksum is verified before the status is looked at: a reply
    whose eight digits are not the sum of the bytes of its body raises
    [ChecksumError], whether its status is [OK] or [Fail!]. *)
Theorem send_text_command_checksum_first
        (command frame : bytes) (w : World) (chunks : list chunk)
        (rest : list bytes) (body checksum status : bytes) (expected : Z) :
  send_command (_text_message_type (session w)) command false w
  = handle_write frame w ->
  delivers w chunks rest ->
  reply_content chunks = body ++ text_trailer checksum status ->
  List.length checksum = 8%nat ->
  forallb (Re.charset_mem Re.upper_hex) checksum = true ->
  status = b_ "OK" \/ status = b_ "Fail!" ->
  int_base16 checksum = Ok expected ->
  expected <> sum (map byte_val body) ->
  send_text_command command w
  = (Raise (ChecksumError expected (sum (map byte_val body))),
     set_pending (snd (handle_write frame w)) rest).
Proof.
  intros Hsend Hdel Hfull Hlen Hhex Hstatus Hint Hsum.
  unfold send_text_command, bind.
  rewrite (text_command_outcome command frame w chunks rest body checksum status
             Hsend Hdel Hfull Hlen Hhex Hstatus).
  rewrite (verify_checksum_bytes body checksum expected Hint).
  destruct (Z.eqb_spec expected (sum (map byte_val body))); [contradiction|].
  reflexivity.
Qed.

(** X15. A message of another type than the text reply type, when it is
    neither a keep-alive nor an error reply, ends a text command with a
    command error that carries the type and content of the message. *)
Theorem send_text_command_unexpected_type
        (command frame : bytes) (w : World) (keepalives : list bytes)
        (report : bytes) (rest : list bytes) (m : message) :
  send_command (_text_message_type (session w)) command false w
  = handle_write frame w ->
  pending (_handle (session w)) = keepalives ++ report :: rest ->
  Forall keepalive_report keepalives ->
  received_message (session w) report = Ok m ->
  fst m <> 0x22 -> ~ error_reply m ->
  fst m <> _text_reply_message_type (session w) ->
  send_text_command command w
  = (Raise (CommandError (TypeMismatch (fst m) (snd m))),
     set_pending (snd (handle_write frame w)) rest).
Proof.
  intros Hsend Hp Hk Hm Hka Herr Htype.
  unfold send_text_command, bind at 1.
  unfold _send_text_command_raw, bind at 1 2 3, get_self.
  rewrite Hsend.
  set (w1 := snd (handle_write frame w)).
  change (handle_write frame w) with (@Ok unit tt, w1). cbv iota.
  cbn [text_reply_loop]. unfold bind at 1 2.
  rewrite (read_response_skips_keepalives false keepalives w1 (report :: rest) Hp Hk).
  rewrite (read_response_returns false (set_pending w1 (report :: rest))
             report rest m eq_refl Hm Hka Herr).
  unfold bind, get_self.
  change (_text_reply_message_type (session (set_pending _ _)))
    with (_text_reply_message_type (session w)).
  destruct (Z.eqb_spec (fst m) (_text_reply_message_type (session w)));
    [contradiction|].
  reflexivity.
Qed.

(** X16. A multirecord message whose eight digits are not the sum of the
    bytes of its records raises [ChecksumError]: no record is returned. *)
Theorem query_multirecord_checksum_mismatch
        (command : bytes) (w w' : World) (x count checksum : bytes)
        (expected : Z) :
  _send_text_command_raw command w =
    (Ok ((x ++ CRLF) ++ count ++ b_ "," ++ checksum ++ CRLF), w') ->
  x <> [] ->
  count <> [] ->
  forallb (Re.charset_mem Re.digit) count = true ->
  List.length checksum = 8%nat ->
  forallb (Re.charset_mem Re.upper_hex) checksum = true ->
  int_base16 checksum = Ok expected ->
  expected <> sum (map byte_val (x ++ CRLF)) ->
  query_multirecord command w
  = (Raise (ChecksumError expected (sum (map byte_val (x ++ CRLF)))), w').
Proof.
  intros Hraw Hx Hne Hdig Hlen Hhex Hint Hsum.
  unfold query_multirecord, bind. rewrite Hraw.
  rewrite not_log_empty.
  rewrite search_multirecords by assumption.
  change (Re.group _ "message") with (@Ok bytes (x ++ CRLF)).
  change (Re.group _ "checksum") with (@Ok bytes checksum).
  unfold lift. rewrite (verify_checksum_bytes _ checksum expected Hint).
  destruct (Z.eqb_spec expected (sum (map byte_val (x ++ CRLF)))); [contradiction|].
  reflexivity.
Qed.

(** X17. When the device answers a multirecord query with the body
    [Log Empty] and its checksum, [query_multirecord] returns the empty
    iterator: the body is not held against the multirecord pattern, which
    it does not match. *)
Theorem query_multirecord_log_empty
        (command frame : bytes) (w : World) (chunks : list chunk)
        (rest : list bytes) (checksum : bytes) :
  send_command (_text_message_type (session w)) command false w
  = handle_write frame w ->
  delivers w chunks rest ->
  reply_content chunks
  = (b_ "Log Empty" ++ CRLF) ++ text_trailer checksum (b_ "OK") ->
  List.length checksum = 8%nat ->
  forallb (Re.charset_mem Re.upper_hex) checksum = true ->
  _verify_checksum (Bytes (b_ "Log Empty" ++ CRLF)) checksum = Ok tt ->
  query_multirecord command w
  = (Ok EmptyIterator, set_pending (snd (handle_write frame w)) rest) /\
  Re.search _MULTIRECORDS_FORMAT (b_ "Log Empty" ++ CRLF) = None.
Proof.
  intros Hsend Hdel Hfull Hlen Hhex Hsum.
  split; [|vm_compute; reflexivity].
  unfold query_multirecord, bind.
  rewrite (text_command_outcome command frame w chunks rest _ checksum (b_ "OK")
             Hsend Hdel Hfull Hlen Hhex (or_introl eq_refl)).
  rewrite Hsum, !bytes_eqb_refl. reflexivity.
Qed.

(** X18. When the contents gathered up to the first completion token do
    not have the form of a text reply, [send_text_command] raises a command
    error that carries them; the reports after the one with the token are
    left in the queue. *)
Theorem send_text_command_malformed_reply
        (command frame : bytes) (w : World) (chunks : list chunk)
        (rest : list bytes) :
  send_command (_text_message_type (session w)) command false w
  = handle_write frame w ->
  delivers w chunks rest ->
  (exists g, Re.search _TEXT_COMPLETION_RE (reply_content chunks) = Some g) ->
  Re.search _TEXT_REPLY_FORMAT (reply_content chunks) = None ->
  send_text_command command w
  = (Raise (CommandError (ReprOf (reply_content chunks))),
     set_pending (snd (handle_write frame w)) rest).
Proof.
  intros Hsend Hdel Hdone Hform.
  unfold send_text_command, bind at 1.
  unfold _send_text_command_raw, bind at 1 2 3, get_self.
  rewrite Hsend.
  pose proof (text_reply_loop_after_send command frame w chunks rest Hdel Hdone)
    as Hloop.
  set (w1 := snd (handle_write frame w)) in *.
  change (handle_write frame w) with (@Ok unit tt, w1). cbv iota.
  unfold bind at 1. rewrite Hloop, Hform. reflexivity.
Qed.

End TextReplies.

(** ** The properties above on sample runs *)

Section SampleRuns.
#[local] Existing Instance Sample.primitives.

Ltac concrete_bound :=
  split; [apply Z.leb_le | apply Z.ltb_lt]; vm_compute; reflexivity.

Ltac sample_delivers :=
  repeat split;
  [ discriminate | discriminate | discriminate | discriminate
  | repeat constructor; vm_compute; reflexivity ].

Lemma send_command_rejects_unbuildable_witness :
  exists e,
    send_command 300 (b_ "hi") false (Sample.world (Sample.plain_session []))
    = (Raise e, Sample.world (Sample.plain_session [])).
Proof.
  apply (send_command_rejects_unbuildable (P := Sample.primitives)).
  right. left. lia.
Defined.

Lemma send_command_needs_keys_witness :
  send_command 0x60 (b_ "hi") false (Sample.world (Sample.encrypted_session []))
  = (Raise AttributeError, Sample.world (Sample.encrypted_session [])).
Proof.
  apply (send_command_needs_keys (P := Sample.primitives)).
  - reflexivity.
  - reflexivity.
  - lia.
  - cbn. lia.
  - left. reflexivity.
Defined.

Lemma send_command_protected_frame_witness :
  send_command 0x60 (b_ "hi") false (Sample.world Sample.keyed_session)
  = handle_write
      ([x00; x60] ++ Sample.encrypt 5 0xFF (protected_region (b_ "hi"))
       ++ zeros 4
       ++ le_bytes 4
            (Sample.sign 7
               ([x60] ++ Sample.encrypt 5 0xFF (protected_region (b_ "hi"))
                ++ zeros 4) / 2 ^ 32))
      (Sample.world Sample.keyed_session).
Proof.
  apply (send_command_protected_frame (P := Sample.primitives)
           0x60 (b_ "hi") false (Sample.world Sample.keyed_session) 5 7).
  - reflexivity.
  - reflexivity.
  - lia.
  - cbn. lia.
  - reflexivity.
  - reflexivity.
  - reflexivity.
  - concrete_bound.
Defined.

Lemma send_command_drops_bytes_after_54_witness :
  send_command 0x60 (Scenario.long_command x41) false
               (Sample.world Sample.keyed_session)
  = send_command 0x60 (Scenario.long_command x42) false
                 (Sample.world Sample.keyed_session).
Proof.
  apply (send_command_drops_bytes_after_54 (P := Sample.primitives)
           0x60 (Scenario.long_command x41) (Scenario.long_command x42) false
           (Sample.world Sample.keyed_session) 5 7).
  - reflexivity.
  - reflexivity.
  - lia.
  - cbn. lia.
  - reflexivity.
  - reflexivity.
  - reflexivity.
  - reflexivity.
  - reflexivity.
Defined.

Lemma protected_frame_passes_the_check_witness :
  exists out,
    encrypt_message Sample.keyed_session Sample.hi_frame = Ok out /\
    decrypt_message Sample.keyed_session (skipn 1 out) =
    Ok (slice 1 2 Sample.hi_frame ++
        Sample.encrypt 5 0 (Sample.encrypt 5 0xFF (slice 2 57 Sample.hi_frame)) ++
        skipn 57 out).
Proof.
  apply (protected_frame_passes_the_check (P := Sample.primitives)
           Sample.keyed_session Sample.hi_frame 5 7).
  - reflexivity.
  - reflexivity.
  - reflexivity.
  - reflexivity.
  - concrete_bound.
Defined.

Lemma read_response_malformed_report_witness :
  read_response false Scenario.empty_report_world
  = (Raise AssertionError, set_pending Scenario.empty_report_world Scenario.later) /\
  read_response false Scenario.one_byte_world
  = (Raise IndexError, set_pending Scenario.one_byte_world Scenario.later).
Proof.
  split.
  - apply (read_response_malformed_report (P := Sample.primitives) false
             Scenario.empty_report_world [] Scenario.later eq_refl).
    reflexivity.
  - apply (read_response_malformed_report (P := Sample.primitives) false
             Scenario.one_byte_world [x60] Scenario.later eq_refl) with (first := x60).
    + reflexivity.
    + left. reflexivity.
Defined.

Lemma read_response_needs_keys_witness :
  read_response false Scenario.unkeyed_world
  = (Raise AttributeError, set_pending Scenario.unkeyed_world Scenario.later).
Proof.
  apply (read_response_needs_keys (P := Sample.primitives) false
           Scenario.unkeyed_world x60 (skipn 1 (Sample.report 0x60 (b_ "hi")))
           Scenario.later).
  - reflexivity.
  - reflexivity.
  - reflexivity.
  - reflexivity.
Defined.


Lemma connect_plain_profile_witness :
  connect Scenario.init_reply_world
  = (Ok tt,
     set_pending (snd (handle_write init_frame Scenario.init_reply_world))
                 Scenario.later) /\
  connect Scenario.refused_init_world
  = (Raise (ConnectionError 0x71 [x00]),
     set_pending (snd (handle_write init_frame Scenario.refused_init_world))
                 Scenario.later).
Proof.
  split.
  - apply (connect_plain_profile (P := Sample.primitives)
             Scenario.init_reply_world [Sample.report 0x22 [x00]]
             (Sample.report 0x71 [x01]) Scenario.later (0x71, [x01])).
    + reflexivity.
    + reflexivity.
    + repeat constructor.
    + vm_compute. reflexivity.
    + cbn. discriminate.
    + intros [E | [E | E]]; discriminate.
    + reflexivity.
  - apply (connect_plain_profile (P := Sample.primitives)
             Scenario.refused_init_world []
             (Sample.report 0x71 [x00]) Scenario.later (0x71, [x00])).
    + reflexivity.
    + reflexivity.
    + constructor.
    + vm_compute. reflexivity.
    + cbn. discriminate.
    + intros [E | [E | E]]; discriminate.
    + discriminate.
Defined.

Lemma send_text_command_returns_body_witness :
  send_text_command (b_ "$swver?")
    (Scenario.reply_world Scenario.version Scenario.version_checksum (b_ "OK"))
  = (Ok (Sample.decode_ascii Scenario.version),
     set_pending
       (snd (handle_write (Scenario.command_frame (b_ "$swver?"))
               (Scenario.reply_world Scenario.version Scenario.version_checksum
                  (b_ "OK"))))
       Scenario.later).
Proof.
  apply (send_text_command_returns_body (P := Sample.primitives)
           (b_ "$swver?") (Scenario.command_frame (b_ "$swver?"))
           (Scenario.reply_world Scenario.version Scenario.version_checksum (b_ "OK"))
           (Scenario.reply_chunks Scenario.version Scenario.version_checksum (b_ "OK"))
           Scenario.later Scenario.version Scenario.version_checksum).
  - reflexivity.
  - sample_delivers.
  - reflexivity.
  - reflexivity.
  - reflexivity.
  - reflexivity.
  - reflexivity.
Defined.

Lemma send_text_command_reports_failure_witness :
  send_text_command (b_ "$swver?")
    (Scenario.reply_world Scenario.version Scenario.version_checksum (b_ "Fail!"))
  = (Raise (CommandError (ReprOf Scenario.version)),
     set_pending
       (snd (handle_write (Scenario.command_frame (b_ "$swver?"))
               (Scenario.reply_world Scenario.version Scenario.version_checksum
                  (b_ "Fail!"))))
       Scenario.later).
Proof.
  apply (send_text_command_reports_failure (P := Sample.primitives)
           (b_ "$swver?") (Scenario.command_frame (b_ "$swver?"))
           (Scenario.reply_world Scenario.version Scenario.version_checksum (b_ "Fail!"))
           (Scenario.reply_chunks Scenario.version Scenario.version_checksum (b_ "Fail!"))
           Scenario.later Scenario.version Scenario.version_checksum).
  - reflexivity.
  - sample_delivers.
  - reflexivity.
  - reflexivity.
  - reflexivity.
  - reflexivity.
Defined.

Lemma send_text_command_checksum_first_witness :
  send_text_command (b_ "$swver?")
    (Scenario.reply_world Scenario.version (b_ "00000000") (b_ "OK"))
  = (Raise (ChecksumError 0 (sum (map byte_val Scenario.version))),
     set_pending
       (snd (handle_write (Scenario.command_frame (b_ "$swver?"))
               (Scenario.reply_world Scenario.version (b_ "00000000") (b_ "OK"))))
       Scenario.later).
Proof.
  apply (send_text_command_checksum_first (P := Sample.primitives)
           (b_ "$swver?") (Scenario.command_frame (b_ "$swver?"))
           (Scenario.reply_world Scenario.version (b_ "00000000") (b_ "OK"))
           (Scenario.reply_chunks Scenario.version (b_ "00000000") (b_ "OK"))
           Scenario.later Scenario.version (b_ "00000000") (b_ "OK") 0).
  - reflexivity.
  - sample_delivers.
  - reflexivity.
  - reflexivity.
  - reflexivity.
  - left. reflexivity.
  - reflexivity.
  - vm_compute. discriminate.
Defined.

Lemma send_text_command_unexpected_type_witness :
  send_text_command (b_ "$swver?") Scenario.other_type_world
  = (Raise (CommandError (TypeMismatch 0x61 (b_ "hi"))),
     set_pending
       (snd (handle_write (Scenario.command_frame (b_ "$swver?"))
               Scenario.other_type_world))
       Scenario.later).
Proof.
  apply (send_text_command_unexpected_type (P := Sample.primitives)
           (b_ "$swver?") (Scenario.command_frame (b_ "$swver?"))
           Scenario.other_type_world [Sample.report 0x22 [x00]]
           (Sample.report 0x61 (b_ "hi")) Scenario.later (0x61, b_ "hi")).
  - reflexivity.
  - reflexivity.
  - repeat constructor.
  - vm_compute. reflexivity.
  - cbn. discriminate.
  - intros [E | [E | E]]; discriminate.
  - cbn. discriminate.
Defined.

Lemma query_multirecord_checksum_mismatch_witness :
  query_multirecord (b_ "$history?") Scenario.bad_multirecord_world
  = (Raise (ChecksumError 0 (sum (map byte_val (Sample.two_records ++ CRLF)))),
     snd (_send_text_command_raw (b_ "$history?") Scenario.bad_multirecord_world)).
Proof.
  apply (query_multirecord_checksum_mismatch (P := Sample.primitives)
           (b_ "$history?") Scenario.bad_multirecord_world
           (snd (_send_text_command_raw (b_ "$history?")
                   Scenario.bad_multirecord_world))
           Sample.two_records (b_ "7") (b_ "00000000") 0).
  - vm_compute. reflexivity.
  - discriminate.
  - discriminate.
  - reflexivity.
  - reflexivity.
  - reflexivity.
  - reflexivity.
  - vm_compute. discriminate.
Defined.

Lemma query_multirecord_log_empty_witness :
  query_multirecord (b_ "$history?")
    (Scenario.reply_world Scenario.log_empty Scenario.log_empty_checksum (b_ "OK"))
  = (Ok EmptyIterator,
     set_pending
       (snd (handle_write (Scenario.command_frame (b_ "$history?"))
               (Scenario.reply_world Scenario.log_empty
                  Scenario.log_empty_checksum (b_ "OK"))))
       Scenario.later) /\
  Re.search _MULTIRECORDS_FORMAT (b_ "Log Empty" ++ CRLF) = None.
Proof.
  apply (query_multirecord_log_empty (P := Sample.primitives)
           (b_ "$history?") (Scenario.command_frame (b_ "$history?"))
           (Scenario.reply_world Scenario.log_empty Scenario.log_empty_checksum
              (b_ "OK"))
           (Scenario.reply_chunks Scenario.log_empty Scenario.log_empty_checksum
              (b_ "OK"))
           Scenario.later Scenario.log_empty_checksum).
  - reflexivity.
  - sample_delivers.
  - reflexivity.
  - reflexivity.
  - reflexivity.
  - reflexivity.
Defined.

Lemma send_text_command_malformed_reply_witness :
  send_text_command (b_ "$swver?") Scenario.bare_status_world
  = (Raise (CommandError (ReprOf (b_ "CMD OK" ++ CRLF))),
     set_pending
       (snd (handle_write (Scenario.command_frame (b_ "$swver?"))
               Scenario.bare_status_world))
       Scenario.later).
Proof.
  apply (send_text_command_malformed_reply (P := Sample.primitives)
           (b_ "$swver?") (Scenario.command_frame (b_ "$swver?"))
           Scenario.bare_status_world
           [mkChunk [] (Sample.report 0x60 (b_ "CMD OK" ++ CRLF)) (b_ "CMD OK" ++ CRLF)]
           Scenario.later).
  - reflexivity.
  - sample_delivers.
  - eexists. vm_compute. reflexivity.
  - vm_compute. reflexivity.
Defined.

End SampleRuns.
